(** * Optiland analysis layer: a shallow embedding and its properties

    The development follows [optiland/analysis.py], [optiland/psf.py] and
    [optiland/geometries/plane.py].
    Arrays of floating-point numbers are modelled as lists of real
    numbers (exact arithmetic); the one place where the source relies on
    NaN ([np.nansum] over ray energies) carries an explicit NaN case.
    Python exceptions are modelled by a sum type, the external
    collaborators (ray tracer, paraxial data, registries, wavefront data)
    by the fields of a record or by explicit arguments.

    Part I holds the embedding, Part II the lemmas and theorems on the
    documented behaviour, Part III further properties of the code. *)

From Stdlib Require Import String.
From Stdlib Require Import Reals List ZArith Lia Lra Psatz Bool.
Import ListNotations.
Open Scope R_scope.

(** * Part I: the embedding *)

(** ** Python exceptions *)

Inductive exn : Type :=
| ValueError
| IndexError
| KeyError
| UnboundLocalError
| ZeroDivisionError.

Definition result (A : Type) : Type := (exn + A)%type.

Definition ok {A} (a : A) : result A := inr a.
Definition raise {A} (e : exn) : result A := inl e.

Definition bind {A B} (m : result A) (k : A -> result B) : result B :=
  match m with
  | inl e => inl e
  | inr a => k a
  end.

Notation "x <- m ;; k" := (bind m (fun x => k))
  (at level 61, m at next level, right associativity).

(** [for v in xs: s = body(s, v)], stopping at the first exception. *)
Fixpoint for_each {A S} (xs : list A) (body : S -> A -> result S) (s : S)
  : result S :=
  match xs with
  | [] => ok s
  | v :: rest => s' <- body s v ;; for_each rest body s'
  end.

(** A loop that appends one value per element, with a body that may raise. *)
Fixpoint map_result {A B} (f : A -> result B) (xs : list A) : result (list B) :=
  match xs with
  | [] => ok []
  | v :: rest => b <- f v ;; bs <- map_result f rest ;; ok (b :: bs)
  end.

(** The value of a computation seen through [f]; an exception is kept. *)
Definition result_map {A B} (f : A -> B) (m : result A) : result B :=
  match m with
  | inl e => inl e
  | inr a => inr (f a)
  end.

(** ** Python and NumPy primitives *)

Definition Rleb (a b : R) : bool := if Rle_dec a b then true else false.
Definition Reqb (a b : R) : bool := if Req_dec_T a b then true else false.

(** [l[i]] with Python's negative indices. *)
Definition py_index {A} (l : list A) (i : Z) : result A :=
  let n := Z.of_nat (length l) in
  let j := if (i <? 0)%Z then (n + i)%Z else i in
  if ((0 <=? j) && (j <? n))%Z%bool then
    match nth_error l (Z.to_nat j) with
    | Some a => ok a
    | None => raise IndexError
    end
  else raise IndexError.

(** A [dict] in insertion order: assignment to a present key replaces its
    value in place, a missing key raises [KeyError] on lookup. *)
Fixpoint dict_get {K V} (eqb : K -> K -> bool) (d : list (K * V)) (k : K)
  : result V :=
  match d with
  | [] => raise KeyError
  | (k', v) :: rest => if eqb k' k then ok v else dict_get eqb rest k
  end.

Fixpoint dict_set {K V} (eqb : K -> K -> bool) (d : list (K * V)) (k : K) (v : V)
  : list (K * V) :=
  match d with
  | [] => [(k, v)]
  | (k', v') :: rest =>
      if eqb k' k then (k', v) :: rest else (k', v') :: dict_set eqb rest k v
  end.

Module np.

(** [np.zeros(n)]; a negative dimension is refused. *)
Definition zeros (n : Z) : result (list R) :=
  if (n <? 0)%Z then raise ValueError else ok (List.repeat 0 (Z.to_nat n)).

(** [np.linspace(start, stop, num)]: [num] evenly spaced samples, the
    k-th being [start + k * step] with [step = (stop - start)/(num - 1)];
    a negative [num] is refused. *)
Definition linspace_step (start stop : R) (n : nat) : R :=
  match n with
  | 0%nat | 1%nat => stop - start
  | _ => (stop - start) / INR (n - 1)
  end.

Definition linspace_nat (start stop : R) (n : nat) : list R :=
  map (fun k => INR k * linspace_step start stop n + start) (seq 0 n).

Definition linspace (start stop : R) (num : Z) : result (list R) :=
  if (num <? 0)%Z then raise ValueError
  else ok (linspace_nat start stop (Z.to_nat num)).

(** [np.repeat(a, reps)]: every element repeated in place. *)
Definition repeat {A} (a : list A) (reps : nat) : list A :=
  flat_map (fun v => List.repeat v reps) a.

(** [np.tile(a, reps)]: the whole array repeated. *)
Fixpoint tile {A} (a : list A) (reps : nat) : list A :=
  match reps with
  | O => []
  | S r => a ++ tile a r
  end.

Definition sum (a : list R) : R := fold_right Rplus 0 a.

Definition mean (a : list R) : R := sum a / INR (length a).

(** [np.max] of an array; an empty array is refused. *)
Definition max (a : list R) : result R :=
  match a with
  | [] => raise ValueError
  | v :: rest => ok (fold_left Rmax rest v)
  end.

Fixpoint zip_with {A B C} (f : A -> B -> C) (a : list A) (b : list B) : list C :=
  match a, b with
  | u :: a', v :: b' => f u v :: zip_with f a' b'
  | _, _ => []
  end.

(** Element-wise binary operation with NumPy broadcasting on
    one-dimensional arrays: equal lengths, or one operand of length 1. *)
Definition broadcast2 {A B C} (f : A -> B -> C) (a : list A) (b : list B)
  : result (list C) :=
  if Nat.eqb (length a) (length b) then ok (zip_with f a b)
  else match a, b with
       | [u], _ => ok (map (f u) b)
       | _, [v] => ok (map (fun u => f u v) a)
       | _, _ => raise ValueError
       end.

Definition add := broadcast2 Rplus.
Definition sub := broadcast2 Rminus.
Definition mul := broadcast2 Rmult.
Definition div := broadcast2 Rdiv.

(** [a ** 2], [np.sqrt(a)] and [c * a] on an array. *)
Definition square (a : list R) : list R := map (fun v => v * v) a.
Definition sqrt (a : list R) : list R := map R_sqrt.sqrt a.
Definition scale (c : R) (a : list R) : list R := map (fun v => c * v) a.

(** [a[::2]] and [a[1::2]]. *)
Fixpoint evens {A} (a : list A) : list A :=
  match a with
  | [] => []
  | u :: rest => u :: match rest with [] => [] | _ :: rest' => evens rest' end
  end.

Definition odds {A} (a : list A) : list A :=
  match a with
  | [] => []
  | _ :: rest => evens rest
  end.

Definition radians (deg : R) : R := deg * PI / 180.

(** [np.meshgrid(x, y)] with the default ['xy'] indexing: the rows of the
    first grid are copies of [x], row [i] of the second is filled with
    [y[i]]. *)
Definition meshgrid (x y : list R) : list (list R) * list (list R) :=
  (map (fun _ => x) y, map (fun v => map (fun _ => v) x) y).

Definition ravel {A} (m : list (list A)) : list A := concat m.

(** Rows of length [cols] cut from a flat array. *)
Fixpoint chunks {A} (rows cols : nat) (a : list A) : list (list A) :=
  match rows with
  | O => []
  | S r => firstn cols a :: chunks r cols (skipn cols a)
  end.

(** [np.reshape(a, (n, n))]; refused unless [a] has [n * n] elements. *)
Definition reshape {A} (a : list A) (n : Z) : result (list (list A)) :=
  if ((0 <=? n) && (Z.of_nat (length a) =? n * n))%Z%bool
  then ok (chunks (Z.to_nat n) (Z.to_nat n) a)
  else raise ValueError.

(** [np.flip(m)] on a two-dimensional array: both axes reversed. *)
Definition flip {A} (m : list (list A)) : list (list A) :=
  rev (map (@rev A) m).

(** Element-wise operation on two grids of one shape. *)
Definition zip_with2 {A B C} (f : A -> B -> C)
  (a : list (list A)) (b : list (list B)) : list (list C) :=
  zip_with (zip_with f) a b.

End np.

(** ** External collaborators *)

(** The last-surface rows [surface_group.x[-1, :]], ... left behind by a
    trace; a NaN energy is [None]. *)
Record Rays : Type := {
  ray_x : list R; ray_y : list R; ray_z : list R;
  ray_L : list R; ray_M : list R; ray_N : list R;
  ray_energy : list (option R)
}.

(** A field or pupil argument of [trace_generic]: a scalar or an array. *)
Inductive coord : Type :=
| Scalar (v : R)
| Array (a : list R).

(** The optical system as the analyzers see it: the ray tracer, the
    field and wavelength registries and the paraxial data. *)
Record Optic : Type := {
  trace : R -> R -> R -> Z -> string -> Rays;
  trace_generic : coord -> coord -> coord -> coord -> R -> Rays;
  field_coords : list (R * R);
  max_field : R;
  wavelength_list : list R;
  primary_index : Z;
  primary_wavelength : R;
  XPD : R; EPD : R; FNO : R; magnification : R;
  object_is_infinite : bool
}.

(** An argument that is either the string ['all'] or an explicit list. *)
Inductive selection (A : Type) : Type :=
| All
| Given (l : list A).
Arguments All {A}.
Arguments Given {A} l.

Definition select {A} (s : selection A) (all : list A) : list A :=
  match s with
  | All => all
  | Given l => l
  end.

(** ** RayFan *)

Module RayFan.

Record t : Type := {
  optic : Optic;
  fields : list (R * R);
  wavelengths : list R;
  num_points : Z
}.

(** The inner dictionary [{'x': ..., 'y': ...}] of one (field, wavelength). *)
Record curve : Type := { ex : list R; ey : list R }.

Definition field_eqb (f g : R * R) : bool :=
  Reqb (fst f) (fst g) && Reqb (snd f) (snd g).

(** The dictionary returned by [_generate_data]: the two pupil grids and,
    keyed by field and then by wavelength, the two ray-error curves. *)
Record data_t : Type := {
  Px : list R;
  Py : list R;
  curves : list ((R * R) * list (R * curve))
}.

(** [if num_points % 2 == 1: num_points += 1]. *)
Definition force_num_points (num_points : Z) : Z :=
  if (num_points mod 2 =? 1)%Z then (num_points + 1)%Z else num_points.

(** The first loop of [_generate_data]: two traces per (field, wavelength). *)
Definition trace_wavelengths (o : Optic) (ws : list R) (n : Z) (field : R * R)
  : list (R * curve) :=
  fold_left
    (fun d wavelength =>
       let x := ray_x (trace o (fst field) (snd field) wavelength n "line_x") in
       let y := ray_y (trace o (fst field) (snd field) wavelength n "line_y") in
       dict_set Reqb d wavelength {| ex := x; ey := y |})
    ws [].

Definition trace_fields (o : Optic) (fs : list (R * R)) (ws : list R) (n : Z)
  : list ((R * R) * list (R * curve)) :=
  fold_left
    (fun d field => dict_set field_eqb d field (trace_wavelengths o ws n field))
    fs [].

(** The second loop ("remove distortion"): the sample of index
    [num_points // 2] of the primary wavelength's curves is subtracted from
    the curves of every wavelength of the field. *)
Definition remove_offsets (ws : list R) (wave_ref : R) (n : Z)
  (d : list (R * curve)) : result (list (R * curve)) :=
  ref <- dict_get Reqb d wave_ref ;;
  x_offset <- py_index (ex ref) (n / 2)%Z ;;
  y_offset <- py_index (ey ref) (n / 2)%Z ;;
  for_each ws
    (fun d wavelength =>
       c <- dict_get Reqb d wavelength ;;
       ok (dict_set Reqb d wavelength
             {| ex := map (fun v => v - x_offset) (ex c);
                ey := map (fun v => v - y_offset) (ey c) |}))
    d.

Definition _generate_data (self : t) : result data_t :=
  px <- np.linspace (-1) 1 (num_points self) ;;
  py <- np.linspace (-1) 1 (num_points self) ;;
  let traced :=
    trace_fields (optic self) (fields self) (wavelengths self) (num_points self) in
  let wave_ref := primary_wavelength (optic self) in
  final <- for_each (fields self)
    (fun data field =>
       d <- dict_get field_eqb data field ;;
       d' <- remove_offsets (wavelengths self) wave_ref (num_points self) d ;;
       ok (dict_set field_eqb data field d'))
    traced ;;
  ok {| Px := px; Py := py; curves := final |}.

(** [RayFan(optic, fields, wavelengths, num_points)]: the instance and its
    [data]. *)
Definition __init__ (o : Optic) (fs : selection (R * R)) (ws : selection R)
  (num_points : Z) : result (t * data_t) :=
  let self := {| optic := o;
                 fields := select fs (field_coords o);
                 wavelengths := select ws (wavelength_list o);
                 num_points := force_num_points num_points |} in
  data <- _generate_data self ;;
  ok (self, data).

End RayFan.

(** ** FieldCurvature *)

Module FieldCurvature.

Record t : Type := {
  optic : Optic;
  wavelengths : list R;
  num_points : Z
}.

Definition default_delta : R := 1e-5.

(** The four arrays [Hx, Hy, Px, Py] handed to [trace_generic] by
    [_intersection_parabasal_tangential]. *)
Definition tangential_coords (self : t) (delta : R)
  : result (list R * list R * list R * list R) :=
  Hx <- np.zeros (2 * num_points self) ;;
  lin <- np.linspace 0 1 (num_points self) ;;
  let Hy := np.repeat lin 2 in
  Px <- np.zeros (2 * num_points self) ;;
  let Py := np.tile [- delta; delta] 128 in
  ok (Hx, Hy, Px, Py).

(** The same for [_intersection_parabasal_sagittal]. *)
Definition sagittal_coords (self : t) (delta : R)
  : result (list R * list R * list R * list R) :=
  Hx <- np.zeros (2 * num_points self) ;;
  lin <- np.linspace 0 1 (num_points self) ;;
  let Hy := np.repeat lin 2 in
  let Px := np.tile [- delta; delta] 128 in
  Py <- np.zeros (2 * num_points self) ;;
  ok (Hx, Hy, Px, Py).

(** [(D2*z01 - D2*z02 - N2*p01 + N2*p02) / (D1*N2 - D2*N1) * N1], the
    closed form shared by the two passes ([D] is [M] with [p = y] in the
    tangential pass, [L] with [p = x] in the sagittal one). *)
Definition intersection (D1 N1 D2 N2 p01 z01 p02 z02 : list R) : result (list R) :=
  a <- np.mul D2 z01 ;;
  b <- np.mul D2 z02 ;;
  c <- np.mul N2 p01 ;;
  d <- np.mul N2 p02 ;;
  ab <- np.sub a b ;;
  abc <- np.sub ab c ;;
  num <- np.add abc d ;;
  e <- np.mul D1 N2 ;;
  f <- np.mul D2 N1 ;;
  den <- np.sub e f ;;
  t1 <- np.div num den ;;
  np.mul t1 N1.

(** What each pass computes from the traced rays: the rays of even index
    are the first ray of each pair, those of odd index the second. *)
Definition tangential_from (rays : Rays) : result (list R) :=
  intersection
    (np.evens (ray_M rays)) (np.evens (ray_N rays))
    (np.odds (ray_M rays)) (np.odds (ray_N rays))
    (np.evens (ray_y rays)) (np.evens (ray_z rays))
    (np.odds (ray_y rays)) (np.odds (ray_z rays)).

Definition sagittal_from (rays : Rays) : result (list R) :=
  intersection
    (np.evens (ray_L rays)) (np.evens (ray_N rays))
    (np.odds (ray_L rays)) (np.odds (ray_N rays))
    (np.evens (ray_x rays)) (np.evens (ray_z rays))
    (np.odds (ray_x rays)) (np.odds (ray_z rays)).

Definition _intersection_parabasal_tangential (self : t) (wavelength delta : R)
  : result (list R) :=
  c <- tangential_coords self delta ;;
  let '(Hx, Hy, Px, Py) := c in
  tangential_from
    (trace_generic (optic self) (Array Hx) (Array Hy) (Array Px) (Array Py)
       wavelength).

Definition _intersection_parabasal_sagittal (self : t) (wavelength delta : R)
  : result (list R) :=
  c <- sagittal_coords self delta ;;
  let '(Hx, Hy, Px, Py) := c in
  sagittal_from
    (trace_generic (optic self) (Array Hx) (Array Hy) (Array Px) (Array Py)
       wavelength).

Definition _generate_data (self : t) : result (list (list R * list R)) :=
  map_result
    (fun wavelength =>
       tangential <-
         _intersection_parabasal_tangential self wavelength default_delta ;;
       sagittal <-
         _intersection_parabasal_sagittal self wavelength default_delta ;;
       ok (tangential, sagittal))
    (wavelengths self).

End FieldCurvature.

(** ** Distortion *)

Module Distortion.

Record t : Type := {
  optic : Optic;
  wavelengths : list R;
  num_points : Z;
  distortion_type : string
}.

(** The body of the loop over wavelengths in [_generate_data]. *)
Definition wavelength_data (self : t) (Hx Hy : list R) (wavelength : R)
  : result (list R) :=
  let rays :=
    trace_generic (optic self) (Array Hx) (Array Hy) (Scalar 0) (Scalar 0)
      wavelength in
  let yr := ray_y rays in
  yr0 <- py_index yr 0 ;;
  let const := yr0 / tan (1e-10 * np.radians (max_field (optic self))) in
  yp <-
    (if String.eqb (distortion_type self) "f-tan" then
       ok (np.scale const
             (map (fun h => tan (h * np.radians (max_field (optic self)))) Hy))
     else if String.eqb (distortion_type self) "f-theta" then
       ok (np.scale const
             (map (fun h => tan (h * np.radians (max_field (optic self)))) Hy))
     else raise ValueError) ;;
  diff <- np.sub yr yp ;;
  pct <- np.div (np.scale 100 diff) yp ;;
  ok pct.

Definition _generate_data (self : t) : result (list (list R)) :=
  Hx <- np.zeros (num_points self) ;;
  Hy <- np.linspace 1e-10 1 (num_points self) ;;
  for_each (wavelengths self)
    (fun data wavelength =>
       d <- wavelength_data self Hx Hy wavelength ;;
       ok (data ++ [d]))
    [].

(** [Distortion(optic, wavelengths, num_points, distortion_type)]: the
    instance and its [data]. *)
Definition __init__ (o : Optic) (ws : selection R) (num_points : Z)
  (distortion_type : string) : result (t * list (list R)) :=
  let self := {| optic := o;
                 wavelengths := select ws (wavelength_list o);
                 num_points := num_points;
                 distortion_type := distortion_type |} in
  data <- _generate_data self ;;
  ok (self, data).

End Distortion.

(** ** GridDistortion *)

Module GridDistortion.

Record t : Type := {
  optic : Optic;
  wavelength : R;
  num_points : Z;
  distortion_type : string
}.

(** The dictionary returned by [_generate_data]. *)
Record data_t : Type := {
  xr : list (list R);
  yr : list (list R);
  xp : list (list R);
  yp : list (list R);
  max_distortion : R
}.

Definition ideal (const angle : R) (H : list (list R)) : list (list R) :=
  map (fun row => np.scale const (map (fun h => tan (h * angle)) row)) H.

Definition _generate_data (self : t) : result data_t :=
  let ref :=
    trace_generic (optic self) (Scalar 0) (Scalar 1e-10) (Scalar 0) (Scalar 0)
      (wavelength self) in
  y0 <- py_index (ray_y ref) 0 ;;
  let const := y0 / tan (1e-10 * np.radians (max_field (optic self))) in
  let max_field' := sqrt 2 / 2 in
  extent <- np.linspace (- max_field') max_field' (num_points self) ;;
  let '(Hx, Hy) := np.meshgrid extent extent in
  p <-
    (if String.eqb (distortion_type self) "f-tan" then
       ok (ideal const (np.radians (max_field (optic self))) Hx,
           ideal const (np.radians (max_field (optic self))) Hy)
     else if String.eqb (distortion_type self) "f-theta" then
       ok (ideal const (np.radians (max_field (optic self))) Hx,
           ideal const (np.radians (max_field (optic self))) Hy)
     else raise ValueError) ;;
  let rays :=
    trace_generic (optic self) (Array (np.ravel Hx)) (Array (np.ravel Hy))
      (Scalar 0) (Scalar 0) (wavelength self) in
  data_xr <- np.reshape (ray_x rays) (num_points self) ;;
  data_yr <- np.reshape (ray_y rays) (num_points self) ;;
  let data_xp := np.flip (fst p) in
  let data_yp := snd p in
  let delta :=
    np.zip_with2 (fun dx dy => sqrt (dx * dx + dy * dy))
      (np.zip_with2 Rminus data_xp data_xr)
      (np.zip_with2 Rminus data_yp data_yr) in
  let rp := np.zip_with2 (fun u v => sqrt (u * u + v * v)) data_xp data_yp in
  m <- np.max (np.ravel (np.zip_with2 (fun d r => 100 * d / r) delta rp)) ;;
  ok {| xr := data_xr; yr := data_yr; xp := data_xp; yp := data_yp;
        max_distortion := m |}.

(** [wavelength='primary'] is [None], an explicit wavelength [Some w]. *)
Definition __init__ (o : Optic) (w : option R) (num_points : Z)
  (distortion_type : string) : result (t * data_t) :=
  let self := {| optic := o;
                 wavelength := match w with
                               | None => primary_wavelength o
                               | Some v => v
                               end;
                 num_points := num_points;
                 distortion_type := distortion_type |} in
  data <- _generate_data self ;;
  ok (self, data).

End GridDistortion.

(** ** Complex numbers and the discrete Fourier transform *)

Definition C : Type := (R * R)%type.

Definition Cre (z : C) : R := fst z.
Definition Cim (z : C) : R := snd z.
Definition Czero : C := (0, 0).
Definition Cone : C := (1, 0).
Definition Cadd (z w : C) : C := (Cre z + Cre w, Cim z + Cim w).
Definition Cmul (z w : C) : C :=
  (Cre z * Cre w - Cim z * Cim w, Cre z * Cim w + Cim z * Cre w).
Definition Cconj (z : C) : C := (Cre z, - Cim z).
Definition Cscale (r : R) (z : C) : C := (r * Cre z, r * Cim z).

(** [np.exp(1j * theta)]. *)
Definition Cexp_i (theta : R) : C := (cos theta, sin theta).

Definition Ceqb (z w : C) : bool := Reqb (Cre z) (Cre w) && Reqb (Cim z) (Cim w).

Definition Csum (l : list C) : C := fold_right Cadd Czero l.

(** NumPy orders complex numbers by real part, then by imaginary part. *)
Definition Cleb (z w : C) : bool :=
  if Reqb (Cre z) (Cre w) then Rleb (Cim z) (Cim w) else Rleb (Cre z) (Cre w).

Definition Cmax (z w : C) : C := if Cleb z w then w else z.

Module fft.

Definition enumerate {A} (l : list A) : list (nat * A) :=
  combine (seq 0 (length l)) l.

(** The entry [(u, v)] of the two-dimensional transform of an
    [N0 x N1] array: the sum over [(j, k)] of
    [a[j][k] * exp(-2 pi i (u j / N0 + v k / N1))]. *)
Definition dft2_entry (a : list (list C)) (N0 N1 u v : nat) : C :=
  Csum
    (map (fun jr =>
            Csum
              (map (fun kz =>
                      Cmul (snd kz)
                        (Cexp_i
                           (- (2 * PI * (INR u * INR (fst jr) / INR N0
                                         + INR v * INR (fst kz) / INR N1)))))
                 (enumerate (snd jr))))
       (enumerate a)).

(** [np.fft.fft2]; an array without elements is refused. *)
Definition fft2 (a : list (list C)) : result (list (list C)) :=
  let N0 := length a in
  let N1 := length (hd [] a) in
  if ((N0 =? 0) || (N1 =? 0))%nat then raise ValueError
  else ok (map (fun u => map (fun v => dft2_entry a N0 N1 u v) (seq 0 N1))
             (seq 0 N0)).

(** [np.roll(l, k)] for [0 <= k <= len(l)]. *)
Definition roll {A} (k : nat) (l : list A) : list A :=
  skipn (length l - k) l ++ firstn (length l - k) l.

(** [np.fft.fftshift]: each axis rolled by half its length. *)
Definition fftshift {A} (a : list (list A)) : list (list A) :=
  roll (length a / 2) (map (fun row => roll (length row / 2) row) a).


Definition rsum (l : list C) : R := fold_right (fun z acc => Cre z + acc) 0 l.


End fft.

(** ** FFTPSF *)

Module FFTPSF.

(** The attributes set by the [Wavefront] base class ([wavelengths],
    [num_rays], and [data[field][wavelength] = (OPD, relative amplitude)])
    together with [grid_size]. *)
Record t : Type := {
  optic : Optic;
  wavelengths : list R;
  num_rays : Z;
  data : list (list (list R * list R));
  grid_size : Z
}.

Fixpoint mask_fill {A} (mask : list bool) (P : list A) (values : list A) : list A :=
  match mask, P with
  | true :: mask', p :: P' =>
      match values with
      | v :: values' => v :: mask_fill mask' P' values'
      | [] => p :: mask_fill mask' P' []
      end
  | false :: mask', p :: P' => p :: mask_fill mask' P' values
  | _, _ => P
  end.

(** [P[mask] = values]: the selected places receive the values in order;
    the number of values must be the number of selected places, or one. *)
Definition mask_assign {A} (mask : list bool) (P : list A) (values : list A)
  : result (list A) :=
  let c := count_occ bool_dec mask true in
  if (length values =? c)%nat then ok (mask_fill mask P values)
  else match values with
       | [v] => ok (mask_fill mask P (List.repeat v c))
       | _ => raise ValueError
       end.

(** The body of the loop over wavelengths in [_generate_pupils]. *)
Definition pupil (self : t) (mask : list bool) (k : nat)
  : result (list (list C)) :=
  field0 <- py_index (data self) 0 ;;
  d <- py_index field0 (Z.of_nat k) ;;
  let P := map (fun _ => Czero) mask in
  let amplitude := map (fun a => a / np.mean (snd d)) (snd d) in
  values <-
    np.broadcast2 (fun a opd => Cscale a (Cexp_i (2 * PI * opd)))
      amplitude (fst d) ;;
  P <- mask_assign mask P values ;;
  np.reshape P (num_rays self).

(** [R <= 1] for [R = sqrt(x**2 + y**2)] over the flattened square grid
    built from the samples [x]. *)
Definition aperture_mask (x : list R) : list bool :=
  let '(gx, gy) := np.meshgrid x x in
  let x := np.ravel gx in
  let y := np.ravel gy in
  let Rr := np.sqrt (np.zip_with Rplus (np.square x) (np.square y)) in
  map (fun r => Rleb r 1) Rr.

Definition _generate_pupils (self : t) : result (list (list (list C))) :=
  x <- np.linspace (-1) 1 (num_rays self) ;;
  let mask := aperture_mask x in
  map_result (pupil self mask) (seq 0 (length (wavelengths self))).

(** [np.pad(pupil, ((pad, pad), (pad, pad)), constant_values=0)]; a
    negative width is refused. *)
Definition pad2 (pad : Z) (p : list (list C)) : result (list (list C)) :=
  if (pad <? 0)%Z then raise ValueError
  else
    let w := Z.to_nat pad in
    let cols := length (hd [] p) in
    let blank := List.repeat (List.repeat Czero (w + cols + w)) w in
    ok (blank
          ++ map (fun row => List.repeat Czero w ++ row ++ List.repeat Czero w) p
          ++ blank).

Definition _pad_pupils (self : t) (pupils : list (list (list C)))
  : result (list (list (list C))) :=
  map_result
    (fun p => pad2 ((grid_size self - Z.of_nat (length p)) / 2)%Z p)
    pupils.

(** [amp * np.conj(amp)] on a grid. *)
Definition intensity (amp : list (list C)) : list (list C) :=
  map (map (fun z => Cmul z (Cconj z))) amp.

Definition _get_normalization (self : t) (pupils : list (list (list C)))
  : result R :=
  p0 <- py_index pupils 0 ;;
  let P_nom := map (map (fun z => if Ceqb z Czero then z else Cone)) p0 in
  f <- fft.fft2 P_nom ;;
  let amp_norm := fft.fftshift f in
  let psf_norm := intensity amp_norm in
  match np.ravel psf_norm with
  | [] => raise ValueError
  | z :: rest =>
      ok (Cre (Cscale (INR (length pupils)) (fold_left Cmax rest z)))
  end.

(** [np.sum(psf, axis=0)] over a non-empty list of grids of one shape. *)
Definition sum_axis0 (psf : list (list (list C))) : list (list C) :=
  match psf with
  | [] => []
  | g :: rest => fold_left (np.zip_with2 Cadd) rest g
  end.

Definition _compute_psf (self : t) (pupils : list (list (list C)))
  : result (list (list R)) :=
  padded <- _pad_pupils self pupils ;;
  norm_factor <- _get_normalization self pupils ;;
  psf <- map_result
           (fun p => f <- fft.fft2 p ;; ok (intensity (fft.fftshift f)))
           padded ;;
  ok (map (map (fun z => Cre z / norm_factor * 100)) (sum_axis0 psf)).

(** [FFTPSF(...)] after the base class has filled in the wavefront data:
    the pupils and the PSF. *)
Definition __init__ (self : t)
  : result (list (list (list C)) * list (list R)) :=
  pupils <- _generate_pupils self ;;
  psf <- _compute_psf self pupils ;;
  ok (pupils, psf).

(** A local variable that has not been assigned yet cannot be read. *)
Definition read_local {A} (v : option A) : result A :=
  match v with
  | Some a => ok a
  | None => raise UnboundLocalError
  end.

(** [_get_psf_units(image)], with [image.shape] as [(rows, cols)]. *)
Definition _get_psf_units (self : t) (shape : Z * Z) : result (R * R) :=
  let local_FNO : option R := None in
  let D := XPD (optic self) in
  local_FNO <-
    (if object_is_infinite (optic self) then ok (Some (FNO (optic self)))
     else
       let p := D / EPD (optic self) in
       let m := magnification (optic self) in
       old <- read_local local_FNO ;;
       ok (Some (old * (1 + Rabs m / p)))) ;;
  Q <- (if (num_rays self =? 0)%Z then raise ZeroDivisionError
        else ok (IZR (grid_size self) / IZR (num_rays self))) ;;
  w0 <- py_index (wavelengths self) 0 ;;
  fno <- read_local local_FNO ;;
  let dx := w0 * fno / Q in
  let x := IZR (snd shape) * dx in
  let y := IZR (fst shape) * dx in
  ok (x, y).

(** Vocabulary of the flat-wavefront statement: the aperture mask of the
    instance's pupil grid, the number of samples inside the aperture, and
    the wavefront data of a zero path difference with the uniform relative
    amplitude [a] on those samples. *)
Definition grid_mask (self : t) : list bool :=
  aperture_mask (np.linspace_nat (-1) 1 (Z.to_nat (num_rays self))).

Definition aperture_count (self : t) : nat :=
  count_occ bool_dec (grid_mask self) true.

Definition flat_data (self : t) (a : R) : list R * list R :=
  (List.repeat 0 (aperture_count self), List.repeat a (aperture_count self)).


End FFTPSF.

(** ** SpotDiagram, arrays as values *)

Module SpotDiagram.

(** [wave_data = [x, y]]: the image-plane coordinates of one bundle. *)
Definition wave_data : Type := (list R * list R)%type.

Record t : Type := {
  optic : Optic;
  fields : list (R * R);
  wavelengths : list R;
  data : list (list wave_data)
}.

Definition _generate_field_data (o : Optic) (field : R * R) (wavelength : R)
  (num_rays : Z) (distribution : string) : wave_data :=
  let rays := trace o (fst field) (snd field) wavelength num_rays distribution in
  (ray_x rays, ray_y rays).

Definition _generate_data (o : Optic) (fields : list (R * R))
  (wavelengths : list R) (num_rays : Z) (distribution : string)
  : list (list wave_data) :=
  map (fun field =>
         map (fun wavelength =>
                _generate_field_data o field wavelength num_rays distribution)
           wavelengths)
    fields.

Definition __init__ (o : Optic) (fs : selection (R * R)) (ws : selection R)
  (num_rings : Z) (distribution : string) : t :=
  let fields := select fs (field_coords o) in
  let wavelengths := select ws (wavelength_list o) in
  {| optic := o; fields := fields; wavelengths := wavelengths;
     data := _generate_data o fields wavelengths num_rings distribution |}.

Definition centroid (self : t) : result (list (R * R)) :=
  let norm_index := primary_index (optic self) in
  map_result
    (fun field_data =>
       w <- py_index field_data norm_index ;;
       ok (np.mean (fst w), np.mean (snd w)))
    (data self).

(** The loops of [_center_spots] over a copy of the data. *)
Definition subtract_centroids (centroids : list (R * R))
  (data : list (list wave_data)) : list (list wave_data) :=
  np.zip_with
    (fun c field_data =>
       map (fun w : wave_data =>
              (map (fun v => v - fst c) (fst w),
               map (fun v => v - snd c) (snd w)))
         field_data)
    centroids data.

(** [_center_spots(data)]: the argument is ignored, the stored data is
    copied and centred. *)
Definition _center_spots (self : t) (_ : list (list wave_data))
  : result (list (list wave_data)) :=
  centroids <- centroid self ;;
  let data := data self in
  ok (subtract_centroids centroids data).

Definition geometric_spot_radius (self : t) : result (list (list R)) :=
  data <- _center_spots self (data self) ;;
  map_result
    (fun field_data =>
       map_result
         (fun w : wave_data =>
            r2 <- np.add (np.square (fst w)) (np.square (snd w)) ;;
            np.max (np.sqrt r2))
         field_data)
    data.

Definition rms_spot_radius (self : t) : result (list (list R)) :=
  data <- _center_spots self (data self) ;;
  map_result
    (fun field_data =>
       map_result
         (fun w : wave_data =>
            r2 <- np.add (np.square (fst w)) (np.square (snd w)) ;;
            ok (sqrt (np.mean r2)))
         field_data)
    data.

(** A well-formed instance: every field has a bundle at the primary index,
    and every bundle has as many [x] as [y] coordinates and at least one
    ray. *)
Definition bundle_ok (w : wave_data) : Prop :=
  length (fst w) = length (snd w) /\ fst w <> [].

Definition well_formed (self : t) : Prop :=
  Forall
    (fun field_data =>
       (exists w, py_index field_data (primary_index (optic self)) = ok w) /\
       Forall bundle_ok field_data)
    (data self).

End SpotDiagram.

(** ** EncircledEnergy *)

Module EncircledEnergy.

(** [points = [x, y, energy]]; a NaN energy is [None]. *)
Definition points : Type := (list R * list R * list (option R))%type.

(** [np.nansum]: NaN entries count as zero. *)
Definition nansum (a : list (option R)) : R :=
  fold_right (fun e acc => match e with Some v => v + acc | None => acc end) 0 a.

(** [a[mask]]: the entries selected by a boolean mask of the same length. *)
Definition mask_select {A} (a : list A) (mask : list bool) : result (list A) :=
  if (length a =? length mask)%nat
  then ok (map fst (filter snd (combine a mask)))
  else raise IndexError.

Definition _encircled_energy (radii : list R) (energy : list (option R))
  (radius_max : R) : result R :=
  sel <- mask_select energy (map (fun r => Rleb r radius_max) radii) ;;
  ok (nansum sel).

(** [np.vectorize(f)(a)]: [f] on every element; an empty input is refused. *)
Definition vectorize {A B} (f : A -> result B) (a : list A) : result (list B) :=
  match a with
  | [] => raise ValueError
  | _ => map_result f a
  end.

Definition _generate_encircled_energy_data (field_data : list points)
  (axis_lim : R) (num_points : Z) (buffer : R)
  : result (list R * list (list R)) :=
  let r_max := axis_lim * buffer in
  r_step <- np.linspace 0 r_max num_points ;;
  ee <- map_result
          (fun pts : points =>
             let '(x, y, energy) := pts in
             r2 <- np.add (np.square x) (np.square y) ;;
             let radii := np.sqrt r2 in
             vectorize (fun r => _encircled_energy radii energy r) r_step)
          field_data ;;
  ok (r_step, ee).

Definition default_buffer : R := 1.2.

(** Vocabulary of the statements: an energy that is nonnegative or NaN,
    NaN replaced by zero, a bundle whose three arrays have one length and
    whose energies are nonnegative or NaN, and a non-decreasing curve. *)
Definition nonneg_or_nan (e : option R) : Prop :=
  match e with
  | Some v => 0 <= v
  | None => True
  end.


Definition well_formed (pts : points) : Prop :=
  let '(x, y, energy) := pts in
  length x = length y /\ length energy = length x /\
  Forall nonneg_or_nan energy.




(** The energies selected by the mask [radii <= r], as [mask_select]
    returns them when the lengths agree. *)
Definition selected (radii : list R) (energy : list (option R)) (r : R)
  : list (option R) :=
  map fst (filter snd (combine energy (map (fun v => Rleb v r) radii))).

End EncircledEnergy.

(** ** SpotDiagram, arrays as objects in a store

    The read operations copy the stored arrays and update the copies in
    place.  Here an array is an object at an address of a store, [self.data]
    holds addresses, [deepcopy] allocates and [-=] writes.  The nested
    Python lists are carried as values: the only list slots ever assigned
    belong to copies and receive the object they already hold.  An address
    outside the store reads as the empty array; data built by the
    constructor never holds one. *)

Module SpotStore.

Definition loc : Type := nat.
Definition heap : Type := list (list R).

(** [wave_data = [x, y]] as the addresses of the two arrays. *)
Definition wave_data : Type := (loc * loc)%type.

Record t : Type := {
  norm_index : Z;
  data : list (list wave_data)
}.

(** Computations that read and write the store and may raise. *)
Definition M (A : Type) : Type := heap -> result A * heap.

Definition ret {A} (a : A) : M A := fun h => (ok a, h).
Definition lift {A} (r : result A) : M A := fun h => (r, h).

Definition mbind {A B} (m : M A) (k : A -> M B) : M B :=
  fun h =>
    match m h with
    | (inl e, h') => (inl e, h')
    | (inr a, h') => k a h'
    end.

Notation "x <~ m ;; k" := (mbind m (fun x => k))
  (at level 61, m at next level, right associativity).

Fixpoint mmap {A B} (f : A -> M B) (xs : list A) : M (list B) :=
  match xs with
  | [] => ret []
  | v :: rest => b <~ f v ;; bs <~ mmap f rest ;; ret (b :: bs)
  end.

Fixpoint mfor {A} (xs : list A) (body : A -> M unit) : M unit :=
  match xs with
  | [] => ret tt
  | v :: rest => _ <~ body v ;; mfor rest body
  end.

Definition load (l : loc) : M (list R) := fun h => (ok (nth l h []), h).

Fixpoint update (l : loc) (a : list R) (h : heap) : heap :=
  match h, l with
  | [], _ => []
  | _ :: rest, O => a :: rest
  | b :: rest, S l' => b :: update l' a rest
  end.

(** [arr -= c]: the array at [l] is overwritten in place. *)
Definition isub (l : loc) (c : R) : M unit :=
  fun h => (ok tt, update l (map (fun v => v - c) (nth l h [])) h).

(** [copy.deepcopy]: every array object is copied once; the memo maps the
    address of an object already met to the address of its copy, so
    sharing inside the data is preserved. *)
Definition memo_t : Type := list (loc * loc).

Definition copy_array (memo : memo_t) (l : loc) : M (loc * memo_t) :=
  fun h =>
    match find (fun p => Nat.eqb (fst p) l) memo with
    | Some p => (ok (snd p, memo), h)
    | None => (ok (length h, (l, length h) :: memo), h ++ [nth l h []])
    end.

Definition copy_wave (memo : memo_t) (w : wave_data) : M (wave_data * memo_t) :=
  x <~ copy_array memo (fst w) ;;
  y <~ copy_array (snd x) (snd w) ;;
  ret ((fst x, fst y), snd y).

Fixpoint copy_field (memo : memo_t) (fd : list wave_data)
  : M (list wave_data * memo_t) :=
  match fd with
  | [] => ret ([], memo)
  | w :: rest =>
      w' <~ copy_wave memo w ;;
      r <~ copy_field (snd w') rest ;;
      ret (fst w' :: fst r, snd r)
  end.

Fixpoint copy_data (memo : memo_t) (d : list (list wave_data))
  : M (list (list wave_data) * memo_t) :=
  match d with
  | [] => ret ([], memo)
  | fd :: rest =>
      fd' <~ copy_field memo fd ;;
      r <~ copy_data (snd fd') rest ;;
      ret (fst fd' :: fst r, snd r)
  end.

Definition deepcopy (d : list (list wave_data)) : M (list (list wave_data)) :=
  r <~ copy_data [] d ;; ret (fst r).

Definition centroid (self : t) : M (list (R * R)) :=
  mmap
    (fun field_data =>
       w <~ lift (py_index field_data (norm_index self)) ;;
       x <~ load (fst w) ;;
       y <~ load (snd w) ;;
       ret (np.mean x, np.mean y))
    (data self).

Definition _center_spots (self : t) (_ : list (list wave_data))
  : M (list (list wave_data)) :=
  centroids <~ centroid self ;;
  data <~ deepcopy (data self) ;;
  _ <~ mfor (combine centroids data)
         (fun cf =>
            mfor (snd cf)
              (fun w : wave_data =>
                 _ <~ isub (fst w) (fst (fst cf)) ;;
                 isub (snd w) (snd (fst cf)))) ;;
  ret data.

Definition geometric_spot_radius (self : t) : M (list (list R)) :=
  arg <~ deepcopy (data self) ;;
  data <~ _center_spots self arg ;;
  mmap
    (fun field_data =>
       mmap
         (fun w : wave_data =>
            x <~ load (fst w) ;;
            y <~ load (snd w) ;;
            r2 <~ lift (np.add (np.square x) (np.square y)) ;;
            lift (np.max (np.sqrt r2)))
         field_data)
    data.

Definition rms_spot_radius (self : t) : M (list (list R)) :=
  arg <~ deepcopy (data self) ;;
  data <~ _center_spots self arg ;;
  mmap
    (fun field_data =>
       mmap
         (fun w : wave_data =>
            x <~ load (fst w) ;;
            y <~ load (snd w) ;;
            r2 <~ lift (np.add (np.square x) (np.square y)) ;;
            ret (sqrt (np.mean r2)))
         field_data)
    data.

(** The three read operations, and a sequence of calls on one instance. *)
Inductive read_op : Type :=
| Centroid
| GeometricSpotRadius
| RmsSpotRadius.

Definition run_op (self : t) (op : read_op) (h : heap) : heap :=
  match op with
  | Centroid => snd (centroid self h)
  | GeometricSpotRadius => snd (geometric_spot_radius self h)
  | RmsSpotRadius => snd (rms_spot_radius self h)
  end.

Definition run_ops (self : t) (ops : list read_op) (h : heap) : heap :=
  fold_left (fun h op => run_op self op h) ops h.

(** Vocabulary of the frame property.  [keeps n m Q]: run in a store of at
    least [n] cells, [m] leaves the first [n] cells as they are, never
    shrinks the store, and a returned value satisfies [Q].  [above n d]:
    every address held by the data [d] is at least [n]. *)
Definition keeps {A} (n : nat) (m : M A) (Q : A -> Prop) : Prop :=
  forall h, (n <= length h)%nat ->
    (n <= length (snd (m h)))%nat /\
    firstn n (snd (m h)) = firstn n h /\
    (forall a, fst (m h) = ok a -> Q a).

Definition above (n : nat) (d : list (list wave_data)) : Prop :=
  Forall (Forall (fun w : wave_data => (n <= fst w)%nat /\ (n <= snd w)%nat)) d.

Definition memo_above (n : nat) (memo : memo_t) : Prop :=
  Forall (fun p : loc * loc => (n <= snd p)%nat) memo.

(** Vocabulary of the refinement between the two models: the values held
    by data in a store, the addresses it holds, data whose arrays are
    pairwise distinct allocated objects, and the data [deepcopy] returns
    for such data (consecutive fresh addresses from [base]). *)
Definition read_wave (h : heap) (w : wave_data) : list R * list R :=
  (nth (fst w) h [], nth (snd w) h []).

Definition read_data (h : heap) (d : list (list wave_data))
  : list (list (list R * list R)) :=
  map (map (read_wave h)) d.

Definition field_addresses (fd : list wave_data) : list loc :=
  flat_map (fun w : wave_data => [fst w; snd w]) fd.

Definition addresses (d : list (list wave_data)) : list loc :=
  flat_map field_addresses d.

Definition separated (h : heap) (d : list (list wave_data)) : Prop :=
  NoDup (addresses d) /\ Forall (fun l => (l < length h)%nat) (addresses d).

Fixpoint relabel_field (base : nat) (fd : list wave_data) : list wave_data :=
  match fd with
  | [] => []
  | _ :: rest => (base, S base) :: relabel_field (S (S base)) rest
  end.

Fixpoint relabel_data (base : nat) (d : list (list wave_data))
  : list (list wave_data) :=
  match d with
  | [] => []
  | fd :: rest =>
      relabel_field base fd
      :: relabel_data (base + length (field_addresses fd)) rest
  end.

End SpotStore.

(** ** Concrete inputs used by the examples *)

Definition no_rays : Rays :=
  {| ray_x := []; ray_y := []; ray_z := []; ray_L := []; ray_M := [];
     ray_N := []; ray_energy := [] |}.

(** A finite-conjugate system: the object surface is not at infinity. *)
Definition finite_conjugate_optic : Optic :=
  {| trace := fun _ _ _ _ _ => no_rays;
     trace_generic := fun _ _ _ _ _ => no_rays;
     field_coords := [(0, 0)];
     max_field := 20;
     wavelength_list := [0.55];
     primary_index := 0;
     primary_wavelength := 0.55;
     XPD := 10; EPD := 5; FNO := 4; magnification := -1;
     object_is_infinite := false |}.

(** A spot diagram with one field and one wavelength, two rays. *)
Definition two_ray_spot : SpotDiagram.t :=
  {| SpotDiagram.optic := finite_conjugate_optic;
     SpotDiagram.fields := [(0, 0)];
     SpotDiagram.wavelengths := [0.55];
     SpotDiagram.data := [[([0; 2], [0; 0])]] |}.

(** An unaberrated, unvignetted wavefront on a 3 x 3 pupil grid (five
    samples inside the unit disk), padded to 5 x 5; and the same with the
    relative amplitudes left unnormalised. *)
Definition flat_wavefront (a : R) : FFTPSF.t :=
  {| FFTPSF.optic := finite_conjugate_optic;
     FFTPSF.wavelengths := [0.55];
     FFTPSF.num_rays := 3;
     FFTPSF.data := [[([0; 0; 0; 0; 0], [a; a; a; a; a])]];
     FFTPSF.grid_size := 5 |}.

(** The pupil of a flat wavefront: the indicator of the aperture. *)
Definition indicator (b : bool) : C := if b then Cone else Czero.

(** The same spot diagram in the store: two arrays and the instance that
    holds their addresses. *)
Definition two_ray_store : SpotStore.heap := [[0; 2]; [0; 0]].

Definition two_ray_instance : SpotStore.t :=
  {| SpotStore.norm_index := 0; SpotStore.data := [[(0%nat, 1%nat)]] |}.

(** ** Plane geometry ([optiland/geometries/plane.py]) *)

Definition Rltb (a b : R) : bool := negb (Rleb b a).

Module Plane.

(** [sag(x, y)]: zeros shaped like [y] when [y] is an array, else [0]. *)
Definition sag (x y : coord) : coord :=
  match y with
  | Array a => Array (map (fun _ => 0) a)
  | Scalar _ => Scalar 0
  end.


(** [surface_normal(rays)]: the same normal for every ray. *)
Definition surface_normal (rays : Rays) : R * R * R := (0, 0, 1).

End Plane.



(** ** Further inputs and vocabulary of Part III *)

(** A system with three wavelengths, the second one primary. *)
Definition three_wavelength_optic : Optic :=
  {| trace := fun _ _ _ _ _ => no_rays;
     trace_generic := fun _ _ _ _ _ => no_rays;
     field_coords := [(0, 0)];
     max_field := 20;
     wavelength_list := [0.48; 0.55; 0.65];
     primary_index := 1;
     primary_wavelength := 0.55;
     XPD := 10; EPD := 5; FNO := 4; magnification := 0;
     object_is_infinite := true |}.


(** The ray-error curves [d] of one field hold, at the wavelength
    [wave_ref], curves whose sample of index [k] is 0. *)
Definition zero_reference (wave_ref : R) (k : Z) (d : list (R * RayFan.curve))
  : Prop :=
  exists c,
    dict_get Reqb d wave_ref = ok c /\
    py_index (RayFan.ex c) k = ok 0 /\
    py_index (RayFan.ey c) k = ok 0.

(** A tracer whose line fans hold two rays, and a ray fan over it. *)
Definition fan_optic : Optic :=
  {| trace := fun Hx Hy w _ _ =>
       {| ray_x := [w; w + 1]; ray_y := [Hy; Hy + 2]; ray_z := [0; 0];
          ray_L := [0; 0]; ray_M := [0; 0]; ray_N := [1; 1];
          ray_energy := [Some 1; Some 1] |};
     trace_generic := fun _ _ _ _ _ => no_rays;
     field_coords := [(0, 0)];
     max_field := 20;
     wavelength_list := [0.55];
     primary_index := 0;
     primary_wavelength := 0.55;
     XPD := 10; EPD := 5; FNO := 4; magnification := 0;
     object_is_infinite := true |}.

Definition two_point_fan : RayFan.t :=
  {| RayFan.optic := fan_optic;
     RayFan.fields := [(0, 0)];
     RayFan.wavelengths := [0.55];
     RayFan.num_points := 2 |}.

(** A tracer that images every field coordinate onto itself. *)
Definition coord_values (c : coord) : list R :=
  match c with
  | Scalar v => [v]
  | Array a => a
  end.

Definition pinhole_optic : Optic :=
  {| trace := fun _ _ _ _ _ => no_rays;
     trace_generic := fun Hx Hy _ _ _ =>
       {| ray_x := coord_values Hx; ray_y := coord_values Hy;
          ray_z := map (fun _ => 0) (coord_values Hy);
          ray_L := coord_values Hx; ray_M := coord_values Hy;
          ray_N := map (fun _ => 1) (coord_values Hy);
          ray_energy := map (fun _ => Some 1) (coord_values Hy) |};
     field_coords := [(0, 0)];
     max_field := 20;
     wavelength_list := [0.55];
     primary_index := 0;
     primary_wavelength := 0.55;
     XPD := 10; EPD := 5; FNO := 4; magnification := 0;
     object_is_infinite := true |}.



(** The modulus of a complex number and the sum of the moduli of an
    array. *)
Definition Cabs (z : C) : R := sqrt (Cre z * Cre z + Cim z * Cim z).

Definition abs_sum (l : list C) : R :=
  fold_right (fun z acc => Cabs z + acc) 0 l.


(** ** FFTPSF: the window shown by [view] *)

Module FFTPSF_view.

(** [np.argwhere(mask)] on a two-dimensional array: the (row, column)
    indices of the true entries, row by row. *)
Definition argwhere (mask : list (list bool)) : list (Z * Z) :=
  flat_map
    (fun ir =>
       map (fun jb => (Z.of_nat (fst ir), Z.of_nat (fst jb)))
         (filter snd (fft.enumerate (snd ir))))
    (fft.enumerate mask).

(** [np.min(a, axis=0)] and [np.max(a, axis=0)] of an array of index
    pairs; an empty array is refused. *)
Definition min_axis0 (a : list (Z * Z)) : result (Z * Z) :=
  match a with
  | [] => raise ValueError
  | p :: rest =>
      ok (fold_left
            (fun acc q => (Z.min (fst acc) (fst q), Z.min (snd acc) (snd q)))
            rest p)
  end.

Definition max_axis0 (a : list (Z * Z)) : result (Z * Z) :=
  match a with
  | [] => raise ValueError
  | p :: rest =>
      ok (fold_left
            (fun acc q => (Z.max (fst acc) (fst q), Z.max (snd acc) (snd q)))
            rest p)
  end.

(** The largest extent, in index differences, of the samples above the
    threshold: [size] in [_find_bounds]. *)
Definition bright_size (psf : list (list R)) (threshold : R) : result Z :=
  let thresholded_psf := map (map (fun v => Rltb threshold v)) psf in
  let non_zero_indices := argwhere thresholded_psf in
  mins <- min_axis0 non_zero_indices ;;
  maxs <- max_axis0 non_zero_indices ;;
  ok (Z.max (fst maxs - fst mins) (snd maxs - snd mins)).

(** [_find_bounds(threshold)] on the grid [self.psf].  The corners
    [peak -/+ size / 2] are floats with a denominator of 2: they are kept
    as numerators over 2 until [int] truncates them. *)
Definition _find_bounds (psf : list (list R)) (threshold : R)
  : result (Z * Z * Z * Z) :=
  size <- bright_size psf threshold ;;
  let shape0 := Z.of_nat (length psf) in
  let shape1 := Z.of_nat (length (hd [] psf)) in
  let peak_x := (shape0 / 2)%Z in
  let peak_y := (shape1 / 2)%Z in
  let min_x := (2 * peak_x - size)%Z in
  let max_x := (2 * peak_x + size)%Z in
  let min_y := (2 * peak_y - size)%Z in
  let max_y := (2 * peak_y + size)%Z in
  let min_x := if (0 <? min_x)%Z then min_x else 0%Z in
  let min_y := if (0 <? min_y)%Z then min_y else 0%Z in
  let max_x := if (max_x <? 2 * shape0)%Z then max_x else (2 * shape0)%Z in
  let max_y := if (max_y <? 2 * shape1)%Z then max_y else (2 * shape1)%Z in
  ok (Z.quot min_x 2, Z.quot min_y 2, Z.quot max_x 2, Z.quot max_y 2).

End FFTPSF_view.

(** ** EncircledEnergy as an analyzer: construction and the curves of [view]

    [EncircledEnergy] inherits from [SpotDiagram]; its bundles carry the
    ray energies as a third array, and [centroid] reads the first bundle
    of each field. *)

Module EncircledEnergy_view.

Record t : Type := {
  optic : Optic;
  fields : list (R * R);
  wavelengths : list R;
  num_points : Z;
  data : list (list EncircledEnergy.points)
}.

Definition _generate_field_data (o : Optic) (field : R * R) (wavelength : R)
  (num_rays : Z) (distribution : string) : EncircledEnergy.points :=
  let rays := trace o (fst field) (snd field) wavelength num_rays distribution in
  (ray_x rays, ray_y rays, ray_energy rays).

(** [wavelength='primary'] is [None], an explicit wavelength [Some w]. *)
Definition __init__ (o : Optic) (fs : selection (R * R)) (wavelength : option R)
  (num_rays : Z) (distribution : string) (num_points : Z) : t :=
  let wavelength := match wavelength with
                    | None => primary_wavelength o
                    | Some w => w
                    end in
  let fields := select fs (field_coords o) in
  let wavelengths := [wavelength] in
  {| optic := o; fields := fields; wavelengths := wavelengths;
     num_points := num_points;
     data :=
       map (fun field =>
              map (fun wavelength =>
                     _generate_field_data o field wavelength num_rays
                       distribution)
                wavelengths)
         fields |}.

Definition centroid (self : t) : result (list (R * R)) :=
  map_result
    (fun field_data : list EncircledEnergy.points =>
       p <- py_index field_data 0 ;;
       ok (np.mean (fst (fst p)), np.mean (snd (fst p))))
    (data self).

(** The inherited [_center_spots]: the energies are left as they are. *)
Definition _center_spots (self : t) (_ : list (list EncircledEnergy.points))
  : result (list (list EncircledEnergy.points)) :=
  centroids <- centroid self ;;
  ok (np.zip_with
        (fun c field_data =>
           map (fun p : EncircledEnergy.points =>
                  (map (fun v => v - fst c) (fst (fst p)),
                   map (fun v => v - snd c) (snd (fst p)),
                   snd p))
             field_data)
        centroids (data self)).

(** The inherited [geometric_spot_radius]. *)
Definition geometric_spot_radius (self : t) : result (list (list R)) :=
  data <- _center_spots self (data self) ;;
  map_result
    (fun field_data =>
       map_result
         (fun p : EncircledEnergy.points =>
            r2 <- np.add (np.square (fst (fst p))) (np.square (snd (fst p))) ;;
            np.max (np.sqrt r2))
         field_data)
    data.

(** What [_plot_field] hands to [ax.plot] for one field: the radii
    [r_step] and one curve per bundle ([buffer=1.2]).  Its body is that of
    [_generate_encircled_energy_data]. *)
Definition _plot_field (field_data : list EncircledEnergy.points)
  (axis_lim : R) (num_points : Z) : result (list R * list (list R)) :=
  EncircledEnergy._generate_encircled_energy_data field_data axis_lim
    num_points EncircledEnergy.default_buffer.

(** The curves drawn by [view], field by field. *)
Definition view (self : t) : result (list (list R * list (list R))) :=
  data <- _center_spots self (data self) ;;
  geometric_size <- geometric_spot_radius self ;;
  axis_lim <- np.max (np.ravel geometric_size) ;;
  map_result
    (fun field_data => _plot_field field_data axis_lim (num_points self))
    data.

End EncircledEnergy_view.

(** A tracer whose bundles hold two rays of unit energy, one unit apart. *)
Definition two_ray_optic : Optic :=
  {| trace := fun Hx Hy _ _ _ =>
       {| ray_x := [Hx; Hx + 1]; ray_y := [Hy; Hy]; ray_z := [0; 0];
          ray_L := [0; 0]; ray_M := [0; 0]; ray_N := [1; 1];
          ray_energy := [Some 1; None] |};
     trace_generic := fun _ _ _ _ _ => no_rays;
     field_coords := [(0, 0)];
     max_field := 20;
     wavelength_list := [0.55];
     primary_index := 0;
     primary_wavelength := 0.55;
     XPD := 10; EPD := 5; FNO := 4; magnification := 0;
     object_is_infinite := true |}.

(** ** FFTPSF: the image prepared by [_plot_3d] *)

Module FFTPSF_plot_3d.

(** [np.min] of an array; an empty array is refused. *)
Definition np_min (a : list R) : result R :=
  match a with
  | [] => raise ValueError
  | v :: rest => ok (fold_left Rmin rest v)
  end.

(** [np.log10]. *)
Definition log10 (v : R) : R := ln v / ln 10.

(** What [_plot_3d(image, log)] hands to [plot_surface]: the two axes
    and the surface.  After [image[image <= 0] = np.min(image[image > 0])]
    the values that are not positive are replaced by the smallest positive
    one; with [log] the decimal logarithm is taken. *)
Definition _plot_3d (self : FFTPSF.t) (image : list (list R)) (log : bool)
  : result (list R * list R * list (list R)) :=
  let shape := (Z.of_nat (length image), Z.of_nat (length (hd [] image))) in
  xy <- FFTPSF._get_psf_units self shape ;;
  x <- np.linspace (- fst xy / 2) (fst xy / 2) (snd shape) ;;
  y <- np.linspace (- snd xy / 2) (snd xy / 2) (fst shape) ;;
  m <- np_min (filter (fun v => Rltb 0 v) (np.ravel image)) ;;
  let image := map (map (fun v => if Rleb v 0 then m else v)) image in
  ok (x, y, if log then map (map log10) image else image).

End FFTPSF_plot_3d.






(** The spot diagram, as a value, that an instance holds in the store [h]:
    the arrays read at the addresses of its data, under an optic with the
    instance's reference index. *)
Definition stored_spot (self : SpotStore.t) (h : SpotStore.heap)
  : SpotDiagram.t :=
  {| SpotDiagram.optic :=
       {| trace := trace finite_conjugate_optic;
          trace_generic := trace_generic finite_conjugate_optic;
          field_coords := [];
          max_field := 0;
          wavelength_list := [];
          primary_index := SpotStore.norm_index self;
          primary_wavelength := 0;
          XPD := 0; EPD := 0; FNO := 0; magnification := 0;
          object_is_infinite := true |};
     SpotDiagram.fields := [];
     SpotDiagram.wavelengths := [];
     SpotDiagram.data := SpotStore.read_data h (SpotStore.data self) |}.



(** * Part II: properties *)

(** ** Generic facts *)

Lemma Rleb_true (a b : R) : Rleb a b = true <-> a <= b.
Proof.
  unfold Rleb; destruct (Rle_dec a b); split; intros; auto; discriminate.
Qed.

Lemma Rleb_false (a b : R) : Rleb a b = false <-> b < a.
Proof.
  unfold Rleb; destruct (Rle_dec a b); split; intros; try discriminate;
    try lra; auto.
Qed.

Lemma Reqb_true (a b : R) : Reqb a b = true <-> a = b.
Proof.
  unfold Reqb; destruct (Req_dec_T a b); split; intros; auto; discriminate.
Qed.

Lemma Reqb_refl (a : R) : Reqb a a = true.
Proof. now apply Reqb_true. Qed.

Lemma for_each_ext {A S} (xs : list A) (f g : S -> A -> result S) :
  (forall s v, In v xs -> f s v = g s v) ->
  forall s, for_each xs f s = for_each xs g s.
Proof.
  induction xs as [|v rest IH]; intros Hfg s; simpl; [reflexivity|].
  rewrite Hfg by now left.
  destruct (g s v) as [e|s']; simpl; [reflexivity|].
  apply IH. intros; apply Hfg; now right.
Qed.

Lemma linspace_nat_length (a b : R) (n : nat) :
  length (np.linspace_nat a b n) = n.
Proof. unfold np.linspace_nat. now rewrite length_map, length_seq. Qed.

Lemma linspace_nat_nth (a b : R) (n k : nat) :
  (k < n)%nat ->
  nth k (np.linspace_nat a b n) 0 = INR k * np.linspace_step a b n + a.
Proof.
  intros Hk. unfold np.linspace_nat.
  set (f := fun k => INR k * np.linspace_step a b n + a).
  rewrite (nth_indep (map f (seq 0 n)) 0 (f 0%nat))
    by now rewrite length_map, length_seq.
  rewrite map_nth, seq_nth by assumption. reflexivity.
Qed.

Lemma linspace_step_ge2 (a b : R) (n : nat) :
  (2 <= n)%nat -> np.linspace_step a b n = (b - a) / INR (n - 1).
Proof.
  intros Hn. destruct n as [|[|n]]; try lia. reflexivity.
Qed.

Lemma zeros_ok (n : Z) :
  (0 <= n)%Z -> np.zeros n = ok (List.repeat 0 (Z.to_nat n)).
Proof.
  intros Hn. unfold np.zeros.
  destruct (n <? 0)%Z eqn:E; [apply Z.ltb_lt in E; lia|reflexivity].
Qed.

Lemma linspace_ok (a b : R) (n : Z) :
  (0 <= n)%Z -> np.linspace a b n = ok (np.linspace_nat a b (Z.to_nat n)).
Proof.
  intros Hn. unfold np.linspace.
  destruct (n <? 0)%Z eqn:E; [apply Z.ltb_lt in E; lia|reflexivity].
Qed.

Lemma tile_length {A} (a : list A) (reps : nat) :
  length (np.tile a reps) = (reps * length a)%nat.
Proof.
  induction reps as [|r IH]; simpl; [reflexivity|].
  rewrite length_app, IH. reflexivity.
Qed.

Lemma np_repeat_length {A} (a : list A) (reps : nat) :
  length (np.repeat a reps) = (length a * reps)%nat.
Proof.
  unfold np.repeat. induction a as [|v a IH]; simpl; [reflexivity|].
  rewrite length_app, repeat_length, IH. reflexivity.
Qed.

(** ** RayFan: the pupil grid of an even sample count *)

Lemma force_num_points_even (n : Z) :
  (RayFan.force_num_points n mod 2 = 0)%Z.
Proof.
  unfold RayFan.force_num_points.
  destruct (n mod 2 =? 1)%Z eqn:E.
  - apply Z.eqb_eq in E. rewrite Z.add_mod, E by lia. reflexivity.
  - apply Z.eqb_neq in E. pose proof (Z.mod_pos_bound n 2). lia.
Qed.

(** No sample of [linspace(-1, 1, n)] is 0 when [n] is even. *)
Lemma even_grid_has_no_zero (n : nat) :
  Nat.even n = true ->
  Forall (fun p => p <> 0) (np.linspace_nat (-1) 1 n).
Proof.
  intros He. apply Forall_forall. intros p Hp.
  unfold np.linspace_nat in Hp. apply in_map_iff in Hp as [k [Hk Hin]].
  apply in_seq in Hin. subst p.
  assert (Hn : (2 <= n)%nat).
  { destruct n as [|[|n]]; try lia. discriminate He. }
  rewrite linspace_step_ge2 by assumption.
  assert (Hpos : 0 < INR (n - 1)) by (apply lt_0_INR; lia).
  intros H0.
  assert (H2 : INR (2 * k) = INR (n - 1)).
  { rewrite mult_INR. simpl INR.
    assert (INR k * ((1 - -1) / INR (n - 1)) = 1) by lra.
    assert (Hq : INR k * ((1 - -1) / INR (n - 1)) * INR (n - 1)
                 = INR k * (1 - -1)) by (field; lra).
    rewrite H in Hq. lra. }
  apply INR_eq in H2.
  apply Nat.even_spec in He. destruct He as [m Hm]. lia.
Qed.

(** The reference sample of index [n // 2] is [1/(n-1)] for even [n]. *)
Lemma even_grid_reference_sample (n : nat) :
  Nat.even n = true -> (2 <= n)%nat ->
  nth (n / 2) (np.linspace_nat (-1) 1 n) 0 = 1 / INR (n - 1).
Proof.
  intros He Hn.
  apply Nat.even_spec in He. destruct He as [m Hm].
  assert (Hdiv : (n / 2 = m)%nat).
  { subst n. rewrite Nat.mul_comm. apply Nat.div_mul. lia. }
  rewrite linspace_nat_nth by (rewrite Hdiv; lia).
  rewrite linspace_step_ge2 by assumption.
  rewrite Hdiv.
  assert (Hpos : 0 < INR (n - 1)) by (apply lt_0_INR; lia).
  assert (Hm2 : INR (n - 1) = 2 * INR m - 1).
  { rewrite minus_INR by lia. subst n. rewrite mult_INR. simpl INR. lra. }
  rewrite Hm2 in *. field. lra.
Qed.

(** Whatever [num_points] is asked for, the grid of the forced count has no
    sample at 0. *)
Lemma forced_grid_has_no_zero (num_points : Z) (px : list R) :
  np.linspace (-1) 1 (RayFan.force_num_points num_points) = ok px ->
  Forall (fun p => p <> 0) px.
Proof.
  unfold np.linspace.
  destruct (RayFan.force_num_points num_points <? 0)%Z eqn:E; [discriminate|].
  apply Z.ltb_ge in E. intros H. injection H as <-.
  apply even_grid_has_no_zero.
  pose proof (force_num_points_even num_points) as Hev.
  apply Nat.even_spec.
  exists (Z.to_nat (RayFan.force_num_points num_points / 2)).
  rewrite <- (Z2Nat.inj_mul 2) by (try apply Z.div_pos; lia).
  f_equal. rewrite (Z.div_mod (RayFan.force_num_points num_points) 2) at 1 by lia.
  lia.
Qed.

Lemma default_reference_sample :
  py_index (np.linspace_nat (-1) 1 256) 128 = ok (1 / 255).
Proof.
  unfold py_index. rewrite linspace_nat_length.
  cbn [Z.ltb Z.leb Z.compare Pos.compare Pos.compare_cont andb Z.of_nat].
  change (Z.to_nat 128) with (256 / 2)%nat.
  assert (Hlt : (256 / 2 < length (np.linspace_nat (-1) 1 256))%nat)
    by (rewrite linspace_nat_length; apply Nat.div_lt; lia).
  rewrite (nth_error_nth' _ 0 Hlt).
  rewrite even_grid_reference_sample by (try reflexivity; lia).
  unfold ok. do 2 f_equal.
  change (256 - 1)%nat with 255%nat. rewrite INR_IZR_INZ. reflexivity.
Qed.

(** C4 (defect in the code).  With the default [num_points = 256] the
    constructor keeps 256, an even count; the pupil grid
    [linspace(-1, 1, 256)] then has no sample at pupil coordinate 0, and
    the reference sample of index [256 // 2] is [1/255]: so it is in the
    data of every RayFan that is constructed.  The comment in the source
    asks for an odd count so that a sample lies at 0. *)
Theorem RayFan_default_grid_misses_zero :
  forall (o : Optic) (fs : selection (R * R)) (ws : selection R),
    RayFan.force_num_points 256 = 256%Z /\
    (exists px,
       np.linspace (-1) 1 (RayFan.force_num_points 256) = ok px /\
       py_index px (RayFan.force_num_points 256 / 2) = ok (1 / 255) /\
       Forall (fun p => p <> 0) px) /\
    match RayFan.__init__ o fs ws 256 with
    | inr (self, data) =>
        RayFan.num_points self = 256%Z /\
        py_index (RayFan.Px data) (RayFan.num_points self / 2) = ok (1 / 255) /\
        py_index (RayFan.Py data) (RayFan.num_points self / 2) = ok (1 / 255) /\
        Forall (fun p => p <> 0) (RayFan.Px data) /\
        Forall (fun p => p <> 0) (RayFan.Py data)
    | inl _ => True
    end.
Proof.
  intros o fs ws.
  assert (Hz : Forall (fun p => p <> 0) (np.linspace_nat (-1) 1 256))
    by (apply even_grid_has_no_zero; reflexivity).
  split; [reflexivity|]. split.
  - exists (np.linspace_nat (-1) 1 256). split; [reflexivity|]. split.
    + exact default_reference_sample.
    + exact Hz.
  - unfold RayFan.__init__, RayFan._generate_data.
    cbn [RayFan.num_points RayFan.optic RayFan.fields RayFan.wavelengths].
    change (RayFan.force_num_points 256) with 256%Z.
    rewrite linspace_ok by lia. change (Z.to_nat 256) with 256%nat.
    cbn [bind ok].
    destruct (for_each _ _ _) as [e|final]; cbn [bind ok]; [exact I|].
    cbn [RayFan.num_points RayFan.Px RayFan.Py].
    change (256 / 2)%Z with 128%Z.
    repeat split; try exact default_reference_sample; exact Hz.
Qed.

(** ** FieldCurvature: the pupil offsets handed to the tracer *)

(** Whatever [num_points] is, the offsets are 128 pairs [-delta, +delta]. *)
Lemma tangential_offsets_length (self : FieldCurvature.t) (delta : R)
  (Hx Hy Px Py : list R) :
  FieldCurvature.tangential_coords self delta = ok (Hx, Hy, Px, Py) ->
  Py = np.tile [- delta; delta] 128 /\
  length Hx = Z.to_nat (2 * FieldCurvature.num_points self).
Proof.
  unfold FieldCurvature.tangential_coords, np.zeros, np.linspace.
  destruct (2 * FieldCurvature.num_points self <? 0)%Z; [discriminate|].
  destruct (FieldCurvature.num_points self <? 0)%Z; [discriminate|].
  cbn. intros H. inversion H; subst. split; [reflexivity|].
  apply repeat_length.
Qed.

(** C3 (defect in the code).  For [num_points = 64] the field and [Px]
    arrays handed to the tracer have [2 * 64 = 128] entries, while the
    traced pupil offsets are 256 entries in both passes: the pair
    [-delta, +delta] is tiled 128 times whatever [num_points] is. *)
Theorem FieldCurvature_offsets_ignore_num_points :
  forall (o : Optic) (ws : list R) (w delta : R),
    let self := {| FieldCurvature.optic := o;
                   FieldCurvature.wavelengths := ws;
                   FieldCurvature.num_points := 64 |} in
    (exists Hx Hy Px Py,
        FieldCurvature.tangential_coords self delta = ok (Hx, Hy, Px, Py) /\
        FieldCurvature._intersection_parabasal_tangential self w delta
        = FieldCurvature.tangential_from
            (trace_generic o (Array Hx) (Array Hy) (Array Px) (Array Py) w) /\
        length Hx = 128%nat /\ length Hy = 128%nat /\ length Px = 128%nat /\
        length Py = 256%nat /\ Py = np.tile [- delta; delta] 128) /\
    (exists Hx Hy Px Py,
        FieldCurvature.sagittal_coords self delta = ok (Hx, Hy, Px, Py) /\
        FieldCurvature._intersection_parabasal_sagittal self w delta
        = FieldCurvature.sagittal_from
            (trace_generic o (Array Hx) (Array Hy) (Array Px) (Array Py) w) /\
        length Hx = 128%nat /\ length Hy = 128%nat /\ length Py = 128%nat /\
        length Px = 256%nat /\ Px = np.tile [- delta; delta] 128).
Proof.
  intros o ws w delta self.
  assert (HHy : length (np.repeat (np.linspace_nat 0 1 (Z.to_nat 64)) 2)
                = 128%nat).
  { rewrite np_repeat_length, linspace_nat_length. reflexivity. }
  split.
  - eexists _, _, _, _. split; [reflexivity|]. split; [reflexivity|].
    repeat split; try apply repeat_length; try apply HHy.
  - eexists _, _, _, _. split; [reflexivity|]. split; [reflexivity|].
    repeat split; try apply repeat_length; try apply HHy.
Qed.

(** ** FFTPSF: physical units of the PSF grid *)

(** With the object at infinity the pixel pitch is
    [wavelength * FNO / (grid_size / num_rays)]. *)
Lemma psf_units_infinite_object (self : FFTPSF.t) (shape : Z * Z) (w0 : R) :
  object_is_infinite (FFTPSF.optic self) = true ->
  FFTPSF.num_rays self <> 0%Z ->
  py_index (FFTPSF.wavelengths self) 0 = ok w0 ->
  let dx := w0 * FNO (FFTPSF.optic self)
            / (IZR (FFTPSF.grid_size self) / IZR (FFTPSF.num_rays self)) in
  FFTPSF._get_psf_units self shape
  = ok (IZR (snd shape) * dx, IZR (fst shape) * dx).
Proof.
  intros Hinf Hn Hw dx. unfold FFTPSF._get_psf_units.
  rewrite Hinf. cbn [bind ok].
  destruct (FFTPSF.num_rays self =? 0)%Z eqn:E;
    [apply Z.eqb_eq in E; contradiction|].
  cbn [bind ok]. rewrite Hw. reflexivity.
Qed.

(** C5 (defect in the code).  When the object surface is not at infinity,
    [_get_psf_units] raises [UnboundLocalError] for every image shape:
    [FNO *= ...] reads the local [FNO] before any assignment to it. *)
Theorem psf_units_finite_object_fails (self : FFTPSF.t) (shape : Z * Z) :
  object_is_infinite (FFTPSF.optic self) = false ->
  FFTPSF._get_psf_units self shape = raise UnboundLocalError.
Proof.
  intros Hfin. unfold FFTPSF._get_psf_units. rewrite Hfin. reflexivity.
Qed.

Lemma psf_units_finite_object_fails_witness :
  FFTPSF._get_psf_units
    {| FFTPSF.optic := finite_conjugate_optic;
       FFTPSF.wavelengths := [0.55];
       FFTPSF.num_rays := 128;
       FFTPSF.data := [];
       FFTPSF.grid_size := 1024 |} (128, 128)%Z
  = raise UnboundLocalError.
Proof. apply psf_units_finite_object_fails. reflexivity. Defined.

(** ** Distortion and GridDistortion: the projection selector *)

(** The two accepted selectors run the same loop body. *)
Lemma wavelength_data_f_tan_f_theta (o : Optic) (ws : list R) (n : Z)
  (Hx Hy : list R) (w : R) :
  Distortion.wavelength_data
    {| Distortion.optic := o; Distortion.wavelengths := ws;
       Distortion.num_points := n; Distortion.distortion_type := "f-tan" |}
    Hx Hy w
  = Distortion.wavelength_data
      {| Distortion.optic := o; Distortion.wavelengths := ws;
         Distortion.num_points := n; Distortion.distortion_type := "f-theta" |}
      Hx Hy w.
Proof.
  unfold Distortion.wavelength_data. cbn [Distortion.optic Distortion.distortion_type].
  destruct (py_index _ 0) as [e|yr0]; [reflexivity|].
  cbn [bind].
  change (String.eqb "f-tan" "f-tan") with true.
  change (String.eqb "f-theta" "f-tan") with false.
  change (String.eqb "f-theta" "f-theta") with true.
  reflexivity.
Qed.

(** C2.  A Distortion analyzer built with ['f-tan'] holds the same data as
    one built with ['f-theta'] from the same arguments, and so does a
    GridDistortion analyzer: an exception or equal arrays. *)
Theorem distortion_f_tan_equals_f_theta :
  forall (o : Optic) (ws : selection R) (w : option R) (n : Z),
    result_map snd (Distortion.__init__ o ws n "f-tan")
    = result_map snd (Distortion.__init__ o ws n "f-theta")
    /\ result_map snd (GridDistortion.__init__ o w n "f-tan")
       = result_map snd (GridDistortion.__init__ o w n "f-theta").
Proof.
  intros o ws w n. split.
  - unfold Distortion.__init__, Distortion._generate_data.
    cbn [Distortion.num_points Distortion.wavelengths].
    destruct (np.zeros n) as [e|Hx]; [reflexivity|]. cbn [bind].
    destruct (np.linspace 1e-10 1 n) as [e|Hy]; [reflexivity|]. cbn [bind].
    rewrite (for_each_ext (select ws (wavelength_list o)) _
               (fun data wavelength =>
                  d <- Distortion.wavelength_data
                         {| Distortion.optic := o;
                            Distortion.wavelengths := select ws (wavelength_list o);
                            Distortion.num_points := n;
                            Distortion.distortion_type := "f-theta" |}
                         Hx Hy wavelength ;;
                  ok (data ++ [d]))).
    + destruct (for_each _ _ _); reflexivity.
    + intros s v _. now rewrite wavelength_data_f_tan_f_theta.
  - unfold GridDistortion.__init__, GridDistortion._generate_data.
    cbn [GridDistortion.optic GridDistortion.wavelength
           GridDistortion.num_points GridDistortion.distortion_type].
    change (String.eqb "f-tan" "f-tan") with true.
    change (String.eqb "f-theta" "f-tan") with false.
    change (String.eqb "f-theta" "f-theta") with true.
    cbv iota.
    destruct (py_index _ 0) as [e|y0]; [reflexivity|]. cbn [bind].
    destruct (np.linspace _ _ n) as [e|extent]; [reflexivity|]. cbn [bind].
    destruct (np.meshgrid extent extent) as [Hx Hy]. cbn [bind ok fst snd].
    destruct (np.reshape _ n) as [e|data_xr]; [reflexivity|]. cbn [bind].
    destruct (np.reshape _ n) as [e|data_yr]; [reflexivity|]. cbn [bind].
    destruct (np.max _) as [e|m]; reflexivity.
Qed.

(** An unknown selector is refused by the Distortion loop body, once the
    trace has produced at least one ray. *)
Lemma wavelength_data_unknown_type (self : Distortion.t) (Hx Hy : list R) (w : R) :
  String.eqb (Distortion.distortion_type self) "f-tan" = false ->
  String.eqb (Distortion.distortion_type self) "f-theta" = false ->
  ray_y (trace_generic (Distortion.optic self) (Array Hx) (Array Hy)
           (Scalar 0) (Scalar 0) w) <> [] ->
  Distortion.wavelength_data self Hx Hy w = raise ValueError.
Proof.
  intros H1 H2 Hy0. unfold Distortion.wavelength_data.
  destruct (ray_y _) as [|y0 ys] eqn:E; [contradiction|].
  cbn [py_index length]. rewrite H1, H2.
  replace (py_index (y0 :: ys) 0) with (ok y0); [reflexivity|].
  unfold py_index. cbn [Z.ltb Z.compare].
  replace ((0 <=? 0)%Z && (0 <? Z.of_nat (length (y0 :: ys)))%Z) with true.
  - reflexivity.
  - symmetry. apply andb_true_iff. split; [reflexivity|].
    apply Z.ltb_lt. cbn [length]. lia.
Qed.

Lemma py_index_first {A} (a : A) (l : list A) : py_index (a :: l) 0 = ok a.
Proof.
  unfold py_index. cbn [Z.ltb Z.compare].
  replace ((0 <=? 0)%Z && (0 <? Z.of_nat (length (a :: l)))%Z) with true.
  - reflexivity.
  - symmetry. apply andb_true_iff. split; [reflexivity|].
    apply Z.ltb_lt. cbn [length]. lia.
Qed.

(** With at least one wavelength, Distortion refuses an unknown selector. *)
Lemma Distortion_unknown_type_refused (self : Distortion.t) (w : R)
  (rest : list R) :
  (0 <= Distortion.num_points self)%Z ->
  Distortion.wavelengths self = w :: rest ->
  String.eqb (Distortion.distortion_type self) "f-tan" = false ->
  String.eqb (Distortion.distortion_type self) "f-theta" = false ->
  (forall Hx Hy,
      ray_y (trace_generic (Distortion.optic self) (Array Hx) (Array Hy)
               (Scalar 0) (Scalar 0) w) <> []) ->
  Distortion._generate_data self = raise ValueError.
Proof.
  intros Hn Hws H1 H2 Hrays. unfold Distortion._generate_data.
  rewrite zeros_ok, linspace_ok, Hws by assumption. cbn [bind ok for_each].
  rewrite wavelength_data_unknown_type by auto. reflexivity.
Qed.

(** GridDistortion refuses an unknown selector before the grid is traced. *)
Lemma GridDistortion_unknown_type_refused (self : GridDistortion.t) :
  (0 <= GridDistortion.num_points self)%Z ->
  String.eqb (GridDistortion.distortion_type self) "f-tan" = false ->
  String.eqb (GridDistortion.distortion_type self) "f-theta" = false ->
  ray_y (trace_generic (GridDistortion.optic self) (Scalar 0) (Scalar 1e-10)
           (Scalar 0) (Scalar 0) (GridDistortion.wavelength self)) <> [] ->
  GridDistortion._generate_data self = raise ValueError.
Proof.
  intros Hn H1 H2 Hrays. unfold GridDistortion._generate_data.
  destruct (ray_y _) as [|y0 ys]; [contradiction|].
  rewrite py_index_first, linspace_ok by assumption. cbn [bind ok].
  destruct (np.meshgrid _ _) as [Hx Hy]. rewrite H1, H2. reflexivity.
Qed.

(** C9 (defect in the code).  A Distortion analyzer built with an empty
    wavelength list and the unknown selector ['f-sin'] is constructed
    without any exception and holds empty data: the selector is only
    looked at inside the loop over wavelengths. *)
Theorem Distortion_unknown_type_not_refused :
  forall (o : Optic),
    Distortion.__init__ o (Given []) 128 "f-sin"
    = ok ({| Distortion.optic := o; Distortion.wavelengths := [];
             Distortion.num_points := 128;
             Distortion.distortion_type := "f-sin" |}, []).
Proof. intros o. reflexivity. Qed.

(** ** EncircledEnergy: monotonicity in the radius *)

Section EncircledEnergyFacts.

Import EncircledEnergy.

Lemma encircled_energy_ok (radii : list R) (energy : list (option R)) (r : R) :
  length radii = length energy ->
  _encircled_energy radii energy r = ok (nansum (selected radii energy r)).
Proof.
  intros Hlen. unfold _encircled_energy, mask_select.
  rewrite length_map, Hlen, Nat.eqb_refl. reflexivity.
Qed.








End EncircledEnergyFacts.

Lemma zip_with_length {A B D} (f : A -> B -> D) (a : list A) (b : list B) :
  length a = length b -> length (np.zip_with f a b) = length a.
Proof.
  revert b. induction a as [|u a IH]; intros [|v b] H; simpl in *;
    try discriminate; [reflexivity|].
  f_equal. apply IH. lia.
Qed.

Lemma broadcast2_same_length {A B D} (f : A -> B -> D) (a : list A) (b : list B) :
  length a = length b -> np.broadcast2 f a b = ok (np.zip_with f a b).
Proof. intros H. unfold np.broadcast2. now rewrite H, Nat.eqb_refl. Qed.


Lemma vectorize_nonempty {A B} (f : A -> result B) (a : list A) :
  a <> [] -> EncircledEnergy.vectorize f a = map_result f a.
Proof. destruct a; [contradiction|reflexivity]. Qed.

Lemma Forall2_map_graph {A B} (P : A -> B -> Prop) (g : A -> B) (l : list A) :
  (forall a, P a (g a)) -> Forall2 P l (map g l).
Proof. intros H. induction l; simpl; constructor; auto. Qed.



(** ** SpotDiagram: geometric against RMS radius *)

Lemma fold_left_Rmax_ge_init (l : list R) (v : R) : v <= fold_left Rmax l v.
Proof.
  revert v. induction l as [|u l IH]; intros v; simpl; [lra|].
  apply Rle_trans with (Rmax v u); [apply Rmax_l|apply IH].
Qed.

Lemma fold_left_Rmax_ge (l : list R) (v u : R) :
  In u (v :: l) -> u <= fold_left Rmax l v.
Proof.
  revert v. induction l as [|w l IH]; intros v Hin; simpl.
  - destruct Hin as [E|[]]. lra.
  - destruct Hin as [E|[E|Hin]].
    + subst. apply Rle_trans with (Rmax u w); [apply Rmax_l|].
      apply fold_left_Rmax_ge_init.
    + subst. apply Rle_trans with (Rmax v u); [apply Rmax_r|].
      apply fold_left_Rmax_ge_init.
    + apply IH. now right.
Qed.

Lemma sum_le_bound (l : list R) (b : R) :
  Forall (fun v => v <= b) l -> np.sum l <= INR (length l) * b.
Proof.
  induction 1 as [|v l Hv _ IH].
  - simpl. lra.
  - change (np.sum (v :: l)) with (v + np.sum l).
    change (length (v :: l)) with (S (length l)). rewrite S_INR. lra.
Qed.

Lemma mean_le_bound (l : list R) (b : R) :
  l <> [] -> Forall (fun v => v <= b) l -> np.mean l <= b.
Proof.
  intros Hne Hall. unfold np.mean.
  assert (Hn : 0 < INR (length l)).
  { apply lt_0_INR. destruct l; [contradiction|simpl; lia]. }
  apply Rmult_le_reg_r with (INR (length l)); [assumption|].
  replace (np.sum l / INR (length l) * INR (length l)) with (np.sum l)
    by (field; lra).
  rewrite Rmult_comm. now apply sum_le_bound.
Qed.

(** The largest square root bounds the root of the mean. *)
Lemma max_sqrt_ge_sqrt_mean (r2 : list R) (geo : R) :
  Forall (fun v => 0 <= v) r2 ->
  np.max (np.sqrt r2) = ok geo ->
  sqrt (np.mean r2) <= geo.
Proof.
  intros Hpos Hmax. destruct r2 as [|v rest]; [discriminate|].
  simpl in Hmax. injection Hmax as Hgeo.
  assert (Hin : forall u, In u (v :: rest) -> sqrt u <= geo).
  { intros u Hu. rewrite <- Hgeo.
    apply (fold_left_Rmax_ge (map sqrt rest) (sqrt v) (sqrt u)).
    change (In (sqrt u) (map sqrt (v :: rest))). now apply in_map. }
  assert (Hgeo0 : 0 <= geo).
  { apply Rle_trans with (sqrt v); [apply sqrt_pos|]. apply Hin. now left. }
  rewrite <- (sqrt_Rsqr geo Hgeo0).
  apply sqrt_le_1_alt, mean_le_bound; [discriminate|].
  apply Forall_forall. intros u Hu.
  rewrite Forall_forall in Hpos. specialize (Hpos u Hu). specialize (Hin u Hu).
  rewrite <- (sqrt_sqrt u Hpos). unfold Rsqr.
  assert (0 <= sqrt u) by apply sqrt_pos. nra.
Qed.

Lemma broadcast_squares_nonneg (x y r2 : list R) :
  np.add (np.square x) (np.square y) = ok r2 -> Forall (fun v => 0 <= v) r2.
Proof.
  assert (Hsq : forall l, Forall (fun v => 0 <= v) (np.square l)).
  { intros l. unfold np.square. apply Forall_forall. intros v Hv.
    apply in_map_iff in Hv as [u [E _]]. subst. nra. }
  assert (Hzip : forall a b, Forall (fun v => 0 <= v) a ->
            Forall (fun v => 0 <= v) b ->
            Forall (fun v => 0 <= v) (np.zip_with Rplus a b)).
  { intros a b Ha. revert b. induction Ha as [|u a Hu _ IH]; intros b Hb;
      [constructor|].
    destruct Hb as [|w b Hw Hb]; simpl; constructor; [lra|now apply IH]. }
  generalize (Hsq x) (Hsq y).
  generalize (np.square x) (np.square y). intros a b Ha Hb.
  unfold np.add, np.broadcast2.
  destruct (length a =? length b)%nat.
  - intros E. injection E as <-. now apply Hzip.
  - rewrite Forall_forall in Ha, Hb.
    destruct a as [|u [|u' a]].
    + destruct b as [|w [|w' b]]; try discriminate.
      intros E; injection E as <-. constructor.
    + intros E; injection E as <-. apply Forall_forall. intros v Hv.
      apply in_map_iff in Hv as [t [E Hin]]. subst.
      specialize (Hb t Hin). specialize (Ha u (or_introl eq_refl)). lra.
    + destruct b as [|w [|w' b]]; try discriminate.
      intros E.
      assert (Er : r2 = map (fun t => t + w) (u :: u' :: a))
        by (cbv [ok] in E; congruence).
      subst r2. apply Forall_forall. intros v Hv.
      apply in_map_iff in Hv as [t [Et Hin]]. subst.
      specialize (Ha t Hin). specialize (Hb w (or_introl eq_refl)). lra.
Qed.

(** One bundle: if the geometric radius is computed, so is the RMS
    radius, and it is not larger. *)
Lemma bundle_geometric_ge_rms (w : SpotDiagram.wave_data) (geo : R) :
  (r2 <- np.add (np.square (fst w)) (np.square (snd w)) ;;
   np.max (np.sqrt r2)) = ok geo ->
  exists rms,
    (r2 <- np.add (np.square (fst w)) (np.square (snd w)) ;;
     ok (sqrt (np.mean r2))) = ok rms /\ geo >= rms.
Proof.
  destruct (np.add _ _) as [e|r2] eqn:E; [discriminate|].
  cbn [bind]. intros Hmax. eexists. split; [reflexivity|].
  apply Rle_ge, max_sqrt_ge_sqrt_mean; [|assumption].
  eapply broadcast_squares_nonneg, E.
Qed.

Lemma map_result_Forall2 {A B D} (f : A -> result B) (g : A -> result D)
  (P : B -> D -> Prop) (xs : list A) :
  (forall v b, In v xs -> f v = ok b -> exists d, g v = ok d /\ P b d) ->
  forall bs, map_result f xs = ok bs ->
  exists ds, map_result g xs = ok ds /\ Forall2 P bs ds.
Proof.
  induction xs as [|v rest IH]; intros H bs Hbs; simpl in *.
  - injection Hbs as <-. exists []. split; [reflexivity|constructor].
  - destruct (f v) as [e|b] eqn:Ef; [discriminate|]. cbn [bind] in Hbs.
    destruct (map_result f rest) as [e|bs'] eqn:Er; [discriminate|].
    injection Hbs as <-.
    destruct (H v b (or_introl eq_refl) Ef) as [d [Eg Hp]].
    destruct (IH (fun v b Hin => H v b (or_intror Hin)) bs' eq_refl)
      as [ds [Eds Hds]].
    exists (d :: ds). rewrite Eg, Eds. split; [reflexivity|now constructor].
Qed.

(** Whenever the geometric radii are computed, the RMS radii are computed
    too and are not larger, entry by entry. *)
Lemma geometric_ge_rms_when_computed (self : SpotDiagram.t) (g : list (list R)) :
  SpotDiagram.geometric_spot_radius self = ok g ->
  exists r,
    SpotDiagram.rms_spot_radius self = ok r /\
    Forall2 (Forall2 (fun geo rms => geo >= rms)) g r.
Proof.
  unfold SpotDiagram.geometric_spot_radius, SpotDiagram.rms_spot_radius.
  destruct (SpotDiagram._center_spots self _) as [e|data]; [discriminate|].
  cbn [bind]. apply map_result_Forall2.
  intros field_data b _. apply map_result_Forall2.
  intros w geo _. apply bundle_geometric_ge_rms.
Qed.

Lemma map_result_exists {A B} (f : A -> result B) (xs : list A) :
  Forall (fun v => exists b, f v = ok b) xs ->
  exists bs, map_result f xs = ok bs.
Proof.
  induction 1 as [|v rest [b Hb] _ [bs Hbs]]; simpl.
  - now exists [].
  - rewrite Hb. cbn [bind]. rewrite Hbs. now exists (b :: bs).
Qed.

Lemma subtract_centroids_ok (cs : list (R * R))
  (data : list (list SpotDiagram.wave_data)) :
  Forall (Forall SpotDiagram.bundle_ok) data ->
  Forall (Forall SpotDiagram.bundle_ok) (SpotDiagram.subtract_centroids cs data).
Proof.
  intros H. revert cs. unfold SpotDiagram.subtract_centroids.
  induction H as [|fd data Hfd _ IH]; intros [|c cs]; simpl; constructor;
    [|apply IH].
  apply Forall_forall. intros w Hw. apply in_map_iff in Hw as [w0 [E Hin]].
  rewrite Forall_forall in Hfd. destruct (Hfd w0 Hin) as [Hlen Hne].
  subst w. unfold SpotDiagram.bundle_ok. cbn [fst snd]. rewrite !length_map.
  split; [assumption|]. destruct (fst w0); [contradiction|discriminate].
Qed.

Lemma bundle_geometric_computed (w : SpotDiagram.wave_data) :
  SpotDiagram.bundle_ok w ->
  exists geo,
    (r2 <- np.add (np.square (fst w)) (np.square (snd w)) ;;
     np.max (np.sqrt r2)) = ok geo.
Proof.
  intros [Hlen Hne]. unfold np.add.
  rewrite broadcast2_same_length by (unfold np.square; now rewrite !length_map).
  cbn [bind].
  destruct (fst w) as [|u a]; [contradiction|].
  destruct (snd w) as [|v b]; [discriminate|].
  simpl. eexists. reflexivity.
Qed.

(** On a well-formed instance the geometric radii are computed. *)
Lemma geometric_spot_radius_computed (self : SpotDiagram.t) :
  SpotDiagram.well_formed self ->
  exists g, SpotDiagram.geometric_spot_radius self = ok g.
Proof.
  intros Hwf.
  unfold SpotDiagram.geometric_spot_radius, SpotDiagram._center_spots.
  destruct (map_result_exists
              (fun field_data =>
                 w <- py_index field_data (primary_index (SpotDiagram.optic self)) ;;
                 ok (np.mean (fst w), np.mean (snd w)))
              (SpotDiagram.data self)) as [cs Hcs].
  { eapply Forall_impl; [|exact Hwf]. intros fd [[w Hw] _].
    cbv beta. unfold SpotDiagram.wave_data in Hw. rewrite Hw.
    eexists. reflexivity. }
  unfold SpotDiagram.centroid. rewrite Hcs. cbn [bind ok].
  apply map_result_exists.
  assert (Hok : Forall (Forall SpotDiagram.bundle_ok)
                  (SpotDiagram.subtract_centroids cs (SpotDiagram.data self))).
  { apply subtract_centroids_ok. eapply Forall_impl; [|exact Hwf].
    intros fd [_ H]. exact H. }
  eapply Forall_impl; [|exact Hok]. intros fd Hfd.
  apply map_result_exists. eapply Forall_impl; [|exact Hfd].
  intros w. apply bundle_geometric_computed.
Qed.



(** ** SpotDiagram: the read operations leave the stored arrays alone *)

Section StoreFrame.

Import SpotStore.

Variable n : nat.

Lemma keeps_ret {A} (a : A) (Q : A -> Prop) : Q a -> keeps n (ret a) Q.
Proof.
  intros Hq h Hn. cbn. repeat split; auto. intros b E. now injection E as <-.
Qed.

Lemma keeps_lift {A} (r : result A) : keeps n (lift r) (fun _ => True).
Proof. intros h Hn. cbn. auto. Qed.

Lemma keeps_load (l : loc) : keeps n (load l) (fun _ => True).
Proof. intros h Hn. cbn. auto. Qed.

Lemma keeps_weaken {A} (m : M A) (Q Q' : A -> Prop) :
  keeps n m Q -> (forall a, Q a -> Q' a) -> keeps n m Q'.
Proof.
  intros Hm Hq h Hn. destruct (Hm h Hn) as (H1 & H2 & H3).
  repeat split; auto.
Qed.

Lemma keeps_bind {A B} (m : M A) (k : A -> M B) (Q : A -> Prop)
  (Q' : B -> Prop) :
  keeps n m Q -> (forall a, Q a -> keeps n (k a) Q') ->
  keeps n (mbind m k) Q'.
Proof.
  intros Hm Hk h Hn. destruct (Hm h Hn) as (H1 & H2 & H3).
  unfold mbind. destruct (m h) as [[e|a] h1]; cbn [fst snd] in *.
  - repeat split; auto. intros b E. discriminate E.
  - destruct (Hk a (H3 a eq_refl) h1 H1) as (K1 & K2 & K3).
    repeat split; auto. congruence.
Qed.

Lemma keeps_mmap {A B} (f : A -> M B) (xs : list A) :
  (forall v, In v xs -> keeps n (f v) (fun _ => True)) ->
  keeps n (mmap f xs) (fun _ => True).
Proof.
  induction xs as [|v rest IH]; intros H; simpl.
  - now apply keeps_ret.
  - eapply keeps_bind; [apply H; now left|]. intros b _.
    eapply keeps_bind; [apply IH; intros; apply H; now right|].
    intros bs _. now apply keeps_ret.
Qed.

Lemma keeps_mfor {A} (xs : list A) (body : A -> M unit) :
  (forall v, In v xs -> keeps n (body v) (fun _ => True)) ->
  keeps n (mfor xs body) (fun _ => True).
Proof.
  induction xs as [|v rest IH]; intros H; simpl.
  - now apply keeps_ret.
  - eapply keeps_bind; [apply H; now left|]. intros _ _.
    apply IH. intros; apply H; now right.
Qed.

Lemma update_length (l : loc) (a : list R) (h : heap) :
  length (update l a h) = length h.
Proof.
  revert l. induction h as [|b h IH]; intros [|l]; simpl; auto.
Qed.

Lemma update_firstn (l : loc) (a : list R) (h : heap) (k : nat) :
  (k <= l)%nat -> firstn k (update l a h) = firstn k h.
Proof.
  revert l k. induction h as [|b h IH]; intros [|l] [|k] Hk; simpl; auto;
    try lia.
  f_equal. apply IH. lia.
Qed.

(** A write above [n] keeps the first [n] cells. *)
Lemma keeps_isub (l : loc) (c : R) :
  (n <= l)%nat -> keeps n (isub l c) (fun _ => True).
Proof.
  intros Hl h Hn. cbn. rewrite update_length, update_firstn by assumption.
  auto.
Qed.

(** A copy lives at a fresh address, or at the address of an earlier copy. *)
Lemma keeps_copy_array (memo : memo_t) (l : loc) :
  memo_above n memo ->
  keeps n (copy_array memo l)
    (fun r => (n <= fst r)%nat /\ memo_above n (snd r)).
Proof.
  intros Hmemo h Hn. unfold copy_array.
  destruct (find (fun p => Nat.eqb (fst p) l) memo) as [p|] eqn:E;
    cbn [fst snd].
  - split; [assumption|]. split; [reflexivity|].
    intros r Hr. injection Hr as <-. cbn [fst snd].
    split; [|assumption].
    apply find_some in E as [Hin _].
    unfold memo_above in Hmemo. rewrite Forall_forall in Hmemo.
    now apply Hmemo.
  - rewrite length_app, firstn_app.
    replace (n - length h)%nat with 0%nat by lia.
    rewrite firstn_O, app_nil_r.
    split; [lia|]. split; [reflexivity|].
    intros r Hr. injection Hr as <-. cbn [fst snd].
    split; [assumption|]. constructor; [cbn; assumption|assumption].
Qed.

Lemma keeps_copy_wave (memo : memo_t) (w : wave_data) :
  memo_above n memo ->
  keeps n (copy_wave memo w)
    (fun r => ((n <= fst (fst r))%nat /\ (n <= snd (fst r))%nat)
              /\ memo_above n (snd r)).
Proof.
  intros Hmemo. unfold copy_wave.
  eapply keeps_bind; [now apply keeps_copy_array|]. intros x [Hx Hmx].
  eapply keeps_bind; [now apply keeps_copy_array|]. intros y [Hy Hmy].
  apply keeps_ret. cbn. auto.
Qed.

Lemma keeps_copy_field (fd : list wave_data) (memo : memo_t) :
  memo_above n memo ->
  keeps n (copy_field memo fd)
    (fun r => Forall (fun w : wave_data => (n <= fst w)%nat /\ (n <= snd w)%nat)
                (fst r)
              /\ memo_above n (snd r)).
Proof.
  revert memo. induction fd as [|w rest IH]; intros memo Hmemo; simpl.
  - apply keeps_ret. cbn. auto.
  - eapply keeps_bind; [now apply keeps_copy_wave|]. intros w' [Hw Hmw].
    eapply keeps_bind; [now apply IH|]. intros r [Hr Hmr].
    apply keeps_ret. cbn. auto.
Qed.

Lemma keeps_copy_data (d : list (list wave_data)) (memo : memo_t) :
  memo_above n memo ->
  keeps n (copy_data memo d) (fun r => above n (fst r) /\ memo_above n (snd r)).
Proof.
  revert memo. induction d as [|fd rest IH]; intros memo Hmemo; simpl.
  - apply keeps_ret. cbn. split; [constructor|assumption].
  - eapply keeps_bind; [now apply keeps_copy_field|]. intros fd' [Hf Hmf].
    eapply keeps_bind; [now apply IH|]. intros r [Hr Hmr].
    apply keeps_ret. cbn. split; [now constructor|assumption].
Qed.

Lemma keeps_deepcopy (d : list (list wave_data)) :
  keeps n (deepcopy d) (above n).
Proof.
  unfold deepcopy.
  eapply keeps_bind; [apply keeps_copy_data; constructor|].
  intros r [Hr _]. now apply keeps_ret.
Qed.

Lemma keeps_centroid (self : t) : keeps n (centroid self) (fun _ => True).
Proof.
  unfold centroid. apply keeps_mmap. intros fd _.
  eapply keeps_bind; [apply keeps_lift|]. intros w _.
  eapply keeps_bind; [apply keeps_load|]. intros x _.
  eapply keeps_bind; [apply keeps_load|]. intros y _.
  now apply keeps_ret.
Qed.

(** The in-place subtractions of [_center_spots] go to the copies. *)
Lemma keeps_center_spots (self : t) (arg : list (list wave_data)) :
  keeps n (_center_spots self arg) (above n).
Proof.
  unfold _center_spots.
  eapply keeps_bind; [apply keeps_centroid|]. intros centroids _.
  eapply keeps_bind; [apply keeps_deepcopy|]. intros data Hdata.
  eapply keeps_bind; [|intros _ _; now apply keeps_ret].
  apply keeps_mfor. intros [c fd] Hin. cbn [fst snd].
  apply in_combine_r in Hin.
  unfold above in Hdata. rewrite Forall_forall in Hdata.
  specialize (Hdata fd Hin). rewrite Forall_forall in Hdata.
  apply keeps_mfor. intros w Hw. destruct (Hdata w Hw) as [Hx Hy].
  eapply keeps_bind; [now apply keeps_isub|]. intros _ _.
  now apply keeps_isub.
Qed.

Lemma keeps_geometric_spot_radius (self : t) :
  keeps n (geometric_spot_radius self) (fun _ => True).
Proof.
  unfold geometric_spot_radius.
  eapply keeps_bind; [apply keeps_deepcopy|]. intros arg _.
  eapply keeps_bind; [apply keeps_center_spots|]. intros data _.
  apply keeps_mmap. intros fd _. apply keeps_mmap. intros w _.
  eapply keeps_bind; [apply keeps_load|]. intros x _.
  eapply keeps_bind; [apply keeps_load|]. intros y _.
  eapply keeps_bind; [apply keeps_lift|]. intros r2 _.
  apply keeps_lift.
Qed.

Lemma keeps_rms_spot_radius (self : t) :
  keeps n (rms_spot_radius self) (fun _ => True).
Proof.
  unfold rms_spot_radius.
  eapply keeps_bind; [apply keeps_deepcopy|]. intros arg _.
  eapply keeps_bind; [apply keeps_center_spots|]. intros data _.
  apply keeps_mmap. intros fd _. apply keeps_mmap. intros w _.
  eapply keeps_bind; [apply keeps_load|]. intros x _.
  eapply keeps_bind; [apply keeps_load|]. intros y _.
  eapply keeps_bind; [apply keeps_lift|]. intros r2 _.
  now apply keeps_ret.
Qed.

End StoreFrame.

Lemma keeps_whole_store {A} (m : SpotStore.M A) (h : SpotStore.heap) :
  SpotStore.keeps (length h) m (fun _ => True) ->
  exists ext, snd (m h) = h ++ ext.
Proof.
  intros Hm. destruct (Hm h (Nat.le_refl _)) as (H1 & H2 & _).
  exists (skipn (length h) (snd (m h))).
  rewrite <- (firstn_skipn (length h) (snd (m h))) at 1.
  rewrite H2, firstn_all. reflexivity.
Qed.

Lemma run_op_extends (self : SpotStore.t) (op : SpotStore.read_op)
  (h : SpotStore.heap) :
  exists ext, SpotStore.run_op self op h = h ++ ext.
Proof.
  destruct op; cbn [SpotStore.run_op]; apply keeps_whole_store.
  - apply keeps_centroid.
  - apply keeps_geometric_spot_radius.
  - apply keeps_rms_spot_radius.
Qed.

(** C8.  After any sequence of calls of [centroid], [geometric_spot_radius]
    and [rms_spot_radius] on one instance, started in any store, the store
    is the initial store followed by newly allocated arrays: every array
    that existed before the calls, the arrays of [self.data] among them,
    holds the values it held. *)
Theorem read_operations_keep_stored_data :
  forall (self : SpotStore.t) (ops : list SpotStore.read_op)
         (h : SpotStore.heap),
    (exists ext, SpotStore.run_ops self ops h = h ++ ext) /\
    (forall l, (l < length h)%nat ->
       nth_error (SpotStore.run_ops self ops h) l = nth_error h l).
Proof.
  intros self ops h.
  assert (Hext : exists ext, SpotStore.run_ops self ops h = h ++ ext).
  { revert h. unfold SpotStore.run_ops.
    induction ops as [|op ops IH]; intros h; simpl.
    - exists []. now rewrite app_nil_r.
    - destruct (run_op_extends self op h) as [e1 E1].
      destruct (IH (SpotStore.run_op self op h)) as [e2 E2].
      exists (e1 ++ e2). rewrite E2, E1. now rewrite app_assoc. }
  split; [exact Hext|].
  destruct Hext as [ext E]. intros l Hl. rewrite E.
  now apply nth_error_app1.
Qed.

(** ** FFTPSF: the pupil does not depend on the amplitude scale *)

Lemma py_index_map {A B} (f : A -> B) (l : list A) (i : Z) :
  py_index (map f l) i = result_map f (py_index l i).
Proof.
  unfold py_index. rewrite length_map.
  destruct ((0 <=? _)%Z && _)%bool; [|reflexivity].
  rewrite nth_error_map. destruct (nth_error l _); reflexivity.
Qed.








(** ** FFTPSF: the peak of an unaberrated, unvignetted pupil *)

Section TransformBounds.

Import fft.





Lemma rsum_app (l1 l2 : list C) : rsum (l1 ++ l2) = rsum l1 + rsum l2.
Proof. induction l1 as [|z l1 IH]; simpl; [lra|]. rewrite IH. lra. Qed.

Lemma rsum_concat (m : list (list C)) :
  rsum (concat m) = fold_right (fun row acc => rsum row + acc) 0 m.
Proof.
  induction m as [|row m IH]; simpl; [reflexivity|].
  now rewrite rsum_app, IH.
Qed.


Lemma enumerate_snd {A} (l : list A) : map snd (enumerate l) = l.
Proof.
  unfold enumerate. generalize 0%nat.
  induction l as [|a l IH]; intros s; simpl; [reflexivity|].
  now rewrite IH.
Qed.

Lemma enumerate_In_snd {A} (l : list A) (p : nat * A) :
  In p (enumerate l) -> In (snd p) l.
Proof.
  intros H. rewrite <- (enumerate_snd l). now apply in_map.
Qed.








End TransformBounds.





Lemma ravel_map {A B} (f : A -> B) (m : list (list A)) :
  np.ravel (map (map f) m) = map f (np.ravel m).
Proof. unfold np.ravel. symmetry. apply concat_map. Qed.







Lemma concat_const_length {A B} (x : list A) (l : list B) :
  length (concat (map (fun _ => x) l)) = (length l * length x)%nat.
Proof.
  induction l as [|b l IH]; simpl; [reflexivity|].
  now rewrite length_app, IH.
Qed.

Lemma concat_fill_length {A B} (x : list A) (l : list B) :
  length (concat (map (fun v => map (fun _ => v) x) l))
  = (length l * length x)%nat.
Proof.
  induction l as [|b l IH]; simpl; [reflexivity|].
  now rewrite length_app, length_map, IH.
Qed.

Lemma aperture_mask_length (x : list R) :
  length (FFTPSF.aperture_mask x) = (length x * length x)%nat.
Proof.
  unfold FFTPSF.aperture_mask, np.meshgrid, np.ravel, np.sqrt, np.square.
  rewrite !length_map, zip_with_length; rewrite !length_map.
  - apply concat_const_length.
  - now rewrite concat_const_length, concat_fill_length.
Qed.

Lemma sum_repeat (a : R) (m : nat) : np.sum (List.repeat a m) = INR m * a.
Proof.
  induction m as [|m IH]; [simpl; ring|].
  change (np.sum (List.repeat a (S m))) with (a + np.sum (List.repeat a m)).
  rewrite IH, S_INR. ring.
Qed.

Lemma mean_repeat (a : R) (m : nat) :
  (0 < m)%nat -> np.mean (List.repeat a m) = a.
Proof.
  intros Hm. unfold np.mean. rewrite sum_repeat, repeat_length.
  assert (0 < INR m) by now apply lt_0_INR. field. lra.
Qed.

Lemma map_repeat {A B} (f : A -> B) (a : A) (m : nat) :
  map f (List.repeat a m) = List.repeat (f a) m.
Proof. induction m as [|m IH]; simpl; [reflexivity|]. now rewrite IH. Qed.

Lemma zip_with_repeat {A B D} (f : A -> B -> D) (a : A) (b : B) (m : nat) :
  np.zip_with f (List.repeat a m) (List.repeat b m) = List.repeat (f a b) m.
Proof. induction m as [|m IH]; simpl; [reflexivity|]. now rewrite IH. Qed.

Lemma mask_fill_indicator (mask : list bool) :
  FFTPSF.mask_fill mask (map (fun _ => Czero) mask)
    (List.repeat Cone (count_occ bool_dec mask true))
  = map indicator mask.
Proof.
  induction mask as [|b mask IH]; [reflexivity|].
  destruct b; cbn [map count_occ]; cbn.
  - now rewrite IH.
  - now rewrite IH.
Qed.

(** The values assigned inside the aperture: amplitude over its mean,
    times the phase factor of a zero path difference, is one. *)
Lemma flat_wavefront_values (a : R) (m : nat) :
  a <> 0 -> (0 < m)%nat ->
  np.broadcast2 (fun v opd => Cscale v (Cexp_i (2 * PI * opd)))
    (map (fun v => v / np.mean (List.repeat a m)) (List.repeat a m))
    (List.repeat 0 m)
  = ok (List.repeat Cone m).
Proof.
  intros Ha Hm. rewrite mean_repeat, map_repeat by assumption.
  rewrite broadcast2_same_length by now rewrite !repeat_length.
  rewrite zip_with_repeat. unfold ok. do 2 f_equal.
  unfold Cscale, Cexp_i, Cone. cbn [Cre Cim fst snd].
  rewrite Rmult_0_r, cos_0, sin_0. f_equal; field; assumption.
Qed.

Lemma chunks_concat {A} (rows cols : nat) (a : list A) :
  length a = (rows * cols)%nat -> concat (np.chunks rows cols a) = a.
Proof.
  revert a. induction rows as [|r IH]; intros a Hlen; simpl.
  - destruct a; [reflexivity|discriminate].
  - rewrite IH; [apply firstn_skipn|]. rewrite length_skipn. simpl in Hlen. lia.
Qed.





(** Zero padding keeps the entries nonnegative reals and keeps their sum. *)
Lemma pad2_ok (pad : Z) (p : list (list C)) :
  (0 <= pad)%Z ->
  FFTPSF.pad2 pad p
  = ok (List.repeat
          (List.repeat Czero (Z.to_nat pad + length (hd [] p) + Z.to_nat pad))
          (Z.to_nat pad)
        ++ map (fun row =>
                  List.repeat Czero (Z.to_nat pad) ++ row
                  ++ List.repeat Czero (Z.to_nat pad)) p
        ++ List.repeat
             (List.repeat Czero (Z.to_nat pad + length (hd [] p) + Z.to_nat pad))
             (Z.to_nat pad)).
Proof.
  intros Hp. unfold FFTPSF.pad2.
  destruct (pad <? 0)%Z eqn:E; [apply Z.ltb_lt in E; lia|reflexivity].
Qed.









Lemma chunks_length {A} (rows cols : nat) (a : list A) :
  length (np.chunks rows cols a) = rows.
Proof.
  revert a. induction rows as [|r IH]; intros a; simpl; [reflexivity|].
  now rewrite IH.
Qed.



Section FlatWavefront.

Variable self : FFTPSF.t.
Variables w a : R.
Variable field0 : list (list R * list R).

Hypothesis one_wavelength : FFTPSF.wavelengths self = [w].
Hypothesis first_field : py_index (FFTPSF.data self) 0 = ok field0.
Hypothesis flat : py_index field0 0 = ok (FFTPSF.flat_data self a).
Hypothesis amplitude_nonzero : a <> 0.
Hypothesis aperture_sampled : (0 < FFTPSF.aperture_count self)%nat.

Lemma num_rays_positive : (0 < FFTPSF.num_rays self)%Z.
Proof.
  destruct (Z_lt_le_dec 0 (FFTPSF.num_rays self)) as [|Hle]; [assumption|].
  exfalso. clear flat.
  unfold FFTPSF.aperture_count, FFTPSF.grid_mask in aperture_sampled.
  destruct (FFTPSF.num_rays self) as [|p|p]; [|lia|];
    cbn in aperture_sampled; lia.
Qed.

Lemma mask_length :
  length (FFTPSF.grid_mask self)
  = (Z.to_nat (FFTPSF.num_rays self) * Z.to_nat (FFTPSF.num_rays self))%nat.
Proof.
  unfold FFTPSF.grid_mask.
  now rewrite aperture_mask_length, linspace_nat_length.
Qed.

(** The single pupil is the indicator of the aperture on the square grid. *)
Lemma flat_wavefront_pupils :
  FFTPSF._generate_pupils self
  = ok [np.chunks (Z.to_nat (FFTPSF.num_rays self))
          (Z.to_nat (FFTPSF.num_rays self))
          (map indicator (FFTPSF.grid_mask self))].
Proof.
  pose proof num_rays_positive as Hn.
  unfold FFTPSF._generate_pupils.
  rewrite linspace_ok by lia. cbn [bind ok]. fold (FFTPSF.grid_mask self).
  rewrite one_wavelength. cbn [length seq map_result].
  unfold FFTPSF.pupil. rewrite first_field. cbn [bind ok Z.of_nat].
  rewrite flat. unfold FFTPSF.flat_data. cbn [bind ok fst snd].
  rewrite flat_wavefront_values by assumption. cbn [bind ok].
  unfold FFTPSF.mask_assign. fold (FFTPSF.aperture_count self).
  rewrite repeat_length, Nat.eqb_refl.
  cbn [bind ok]. unfold FFTPSF.aperture_count. rewrite mask_fill_indicator.
  unfold np.reshape. rewrite length_map, mask_length.
  replace ((0 <=? FFTPSF.num_rays self)%Z
           && (Z.of_nat (Z.to_nat (FFTPSF.num_rays self)
                         * Z.to_nat (FFTPSF.num_rays self))
               =? FFTPSF.num_rays self * FFTPSF.num_rays self)%Z)
    with true.
  - reflexivity.
  - symmetry. apply andb_true_iff. split; [apply Z.leb_le; lia|].
    apply Z.eqb_eq. rewrite Nat2Z.inj_mul, Z2Nat.id by lia.
    reflexivity.
Qed.

End FlatWavefront.


Lemma inside_aperture (v : R) : 0 <= v <= 1 -> Rleb (sqrt v) 1 = true.
Proof.
  intros [H0 H1]. apply Rleb_true. rewrite <- sqrt_1.
  now apply sqrt_le_1_alt.
Qed.

Lemma outside_aperture (v : R) : 1 < v -> Rleb (sqrt v) 1 = false.
Proof.
  intros H. apply Rleb_false. rewrite <- sqrt_1 at 1.
  apply sqrt_lt_1; lra.
Qed.

Lemma three_samples : np.linspace_nat (-1) 1 3 = [-1; 0; 1].
Proof.
  unfold np.linspace_nat, np.linspace_step. cbn [seq map Nat.sub INR].
  repeat (f_equal; try lra).
Qed.

(** Of the nine samples of the 3 x 3 pupil grid, five lie in the unit disk. *)
Lemma three_by_three_mask :
  FFTPSF.aperture_mask (np.linspace_nat (-1) 1 3)
  = [false; true; false; true; true; true; false; true; false].
Proof.
  rewrite three_samples.
  unfold FFTPSF.aperture_mask, np.meshgrid, np.ravel, np.sqrt, np.square.
  cbn [map concat app np.zip_with].
  repeat (f_equal;
          try (apply inside_aperture; lra);
          try (apply outside_aperture; lra)).
Qed.

Lemma five_samples_inside : FFTPSF.aperture_count (flat_wavefront 1) = 5%nat.
Proof.
  unfold FFTPSF.aperture_count, FFTPSF.grid_mask.
  change (Z.to_nat (FFTPSF.num_rays (flat_wavefront 1))) with 3%nat.
  rewrite three_by_three_mask. reflexivity.
Qed.


(** ** SpotDiagram: the store model computes the values of the value model *)

Section StoreRefinement.

Import SpotStore.

Lemma copy_array_fresh (memo : memo_t) (l : loc) (h : heap) :
  ~ In l (map fst memo) ->
  copy_array memo l h
  = (ok (length h, (l, length h) :: memo), h ++ [nth l h []]).
Proof.
  intros Hl. unfold copy_array.
  destruct (find (fun p => Nat.eqb (fst p) l) memo) as [p|] eqn:E;
    [|reflexivity].
  exfalso. apply find_some in E as [Hin Heq]. apply Nat.eqb_eq in Heq.
  apply Hl. subst l. now apply in_map.
Qed.

Lemma copy_wave_fresh (memo : memo_t) (w : wave_data) (h : heap) :
  ~ In (fst w) (map fst memo) -> ~ In (snd w) (map fst memo) ->
  fst w <> snd w -> (snd w < length h)%nat ->
  copy_wave memo w h
  = (ok ((length h, S (length h)),
         (snd w, S (length h)) :: (fst w, length h) :: memo),
     h ++ [nth (fst w) h []; nth (snd w) h []]).
Proof.
  intros Hx Hy Hxy Hlt. unfold copy_wave, mbind.
  rewrite copy_array_fresh by assumption. cbn [fst snd ok].
  rewrite copy_array_fresh.
  - cbn [fst snd ok ret]. rewrite length_app. cbn [length].
    rewrite Nat.add_1_r, app_nth1 by assumption.
    now rewrite <- app_assoc.
  - cbn [map fst]. intros [E|Hin]; [now apply Hxy|now apply Hy].
Qed.

Lemma extended_reads (h ext : heap) (ls : list loc) :
  Forall (fun l => (l < length h)%nat) ls ->
  map (fun l => nth l (h ++ ext) []) ls = map (fun l => nth l h []) ls.
Proof.
  intros H. apply map_ext_in. intros l Hl.
  rewrite Forall_forall in H. now apply app_nth1, H.
Qed.

Lemma copy_field_fresh (fd : list wave_data) (memo : memo_t) (h : heap) :
  NoDup (field_addresses fd) ->
  (forall l, In l (field_addresses fd) -> ~ In l (map fst memo)) ->
  Forall (fun l => (l < length h)%nat) (field_addresses fd) ->
  exists memo',
    copy_field memo fd h
    = (ok (relabel_field (length h) fd, memo'),
       h ++ map (fun l => nth l h []) (field_addresses fd)) /\
    (forall l, In l (map fst memo') <->
               In l (field_addresses fd) \/ In l (map fst memo)).
Proof.
  revert memo h. induction fd as [|w rest IH]; intros memo h Hnd Hfresh Hall.
  - exists memo. cbn. rewrite app_nil_r. split; [reflexivity|]. tauto.
  - change (field_addresses (w :: rest))
      with (fst w :: snd w :: field_addresses rest) in *.
    inversion Hnd as [|? ? Hx Hnd1]; subst.
    inversion Hnd1 as [|? ? Hy Hnd2]; subst.
    inversion Hall as [|? ? Hxl Hall1]; subst.
    inversion Hall1 as [|? ? Hyl Hall2]; subst.
    assert (Hxy : fst w <> snd w) by (intros E; apply Hx; left; congruence).
    cbn [copy_field]. unfold mbind at 1.
    rewrite copy_wave_fresh; auto.
    2:{ apply Hfresh. now left. }
    2:{ apply Hfresh. right. now left. }
    cbn [fst snd ok].
    set (h1 := h ++ [nth (fst w) h []; nth (snd w) h []]).
    set (memo1 := (snd w, S (length h)) :: (fst w, length h) :: memo).
    assert (Hlen1 : length h1 = S (S (length h))).
    { unfold h1. rewrite length_app. cbn [length]. lia. }
    destruct (IH memo1 h1) as [memo' [Ecopy Hkeys]].
    + assumption.
    + intros l Hl. unfold memo1. cbn [map fst].
      intros [E|[E|Hin]].
      * subst l. contradiction.
      * subst l. apply Hx. now right.
      * apply (Hfresh l); [right; now right|assumption].
    + eapply Forall_impl; [|exact Hall2]. intros l Hlt. cbn beta in *. lia.
    + exists memo'. split.
      * unfold mbind. rewrite Ecopy. cbn [fst snd ok ret relabel_field].
        rewrite Hlen1. unfold h1. rewrite extended_reads by assumption.
        cbn [map]. now rewrite <- app_assoc.
      * intros l. rewrite Hkeys. unfold memo1. cbn [map fst In]. tauto.
Qed.

Lemma NoDup_app_disjoint {A} (l1 l2 : list A) :
  NoDup (l1 ++ l2) -> forall a, In a l1 -> In a l2 -> False.
Proof.
  induction l1 as [|b l1 IH]; intros Hnd a H1 H2; [contradiction|].
  simpl in Hnd. inversion Hnd as [|? ? Hb Hnd']; subst.
  destruct H1 as [E|H1].
  - subst b. apply Hb, in_app_iff. now right.
  - now apply (IH Hnd' a).
Qed.

Lemma copy_data_fresh (d : list (list wave_data)) (memo : memo_t) (h : heap) :
  NoDup (addresses d) ->
  (forall l, In l (addresses d) -> ~ In l (map fst memo)) ->
  Forall (fun l => (l < length h)%nat) (addresses d) ->
  exists memo',
    copy_data memo d h
    = (ok (relabel_data (length h) d, memo'),
       h ++ map (fun l => nth l h []) (addresses d)) /\
    (forall l, In l (map fst memo') <->
               In l (addresses d) \/ In l (map fst memo)).
Proof.
  revert memo h. induction d as [|fd rest IH]; intros memo h Hnd Hfresh Hall.
  - exists memo. cbn. rewrite app_nil_r. split; [reflexivity|]. tauto.
  - change (addresses (fd :: rest))
      with (field_addresses fd ++ addresses rest) in *.
    apply NoDup_app_remove_l in Hnd as Hnd2.
    apply NoDup_app_remove_r in Hnd as Hnd1.
    apply Forall_app in Hall as [Hall1 Hall2].
    destruct (copy_field_fresh fd memo h) as [memo1 [Ecopy1 Hkeys1]]; auto.
    { intros l Hl. apply Hfresh, in_app_iff. now left. }
    set (h1 := h ++ map (fun l => nth l h []) (field_addresses fd)) in *.
    assert (Hlen1 : length h1 = (length h + length (field_addresses fd))%nat).
    { unfold h1. now rewrite length_app, length_map. }
    destruct (IH memo1 h1) as [memo' [Ecopy Hkeys]].
    + assumption.
    + intros l Hl Hin. apply Hkeys1 in Hin as [Hin|Hin].
      * exact (NoDup_app_disjoint _ _ Hnd l Hin Hl).
      * apply (Hfresh l); [apply in_app_iff; now right|assumption].
    + eapply Forall_impl; [|exact Hall2]. intros l Hlt. cbn beta in *. lia.
    + exists memo'. split.
      * cbn [copy_data]. unfold mbind. rewrite Ecopy1. cbn [fst snd ok].
        rewrite Ecopy. cbn [fst snd ok ret relabel_data].
        rewrite Hlen1. unfold h1. rewrite extended_reads by assumption.
        now rewrite map_app, <- app_assoc.
      * intros l. rewrite Hkeys, Hkeys1, in_app_iff. tauto.
Qed.

(** [deepcopy] of separated data: fresh consecutive arrays holding the
    same values, appended to the store. *)
Lemma deepcopy_separated (d : list (list wave_data)) (h : heap) :
  separated h d ->
  deepcopy d h
  = (ok (relabel_data (length h) d),
     h ++ map (fun l => nth l h []) (addresses d)).
Proof.
  intros [Hnd Hall]. unfold deepcopy, mbind.
  destruct (copy_data_fresh d [] h) as [memo' [E _]]; auto.
  now rewrite E.
Qed.

Lemma skipn_head {A} (k : nat) (l : list A) (x d : A) (t : list A) :
  skipn k l = x :: t -> nth k l d = x /\ skipn (S k) l = t.
Proof.
  intros E. split.
  - rewrite <- (Nat.add_0_r k), <- nth_skipn, E. reflexivity.
  - change (S k) with (1 + k)%nat. rewrite <- skipn_skipn, E. reflexivity.
Qed.

Lemma read_relabel_field (h H : heap) (fd : list wave_data) (base : nat)
  (tail : heap) :
  skipn base H = map (fun l => nth l h []) (field_addresses fd) ++ tail ->
  map (read_wave H) (relabel_field base fd) = map (read_wave h) fd.
Proof.
  revert base. induction fd as [|w rest IH]; intros base E; [reflexivity|].
  change (field_addresses (w :: rest))
    with (fst w :: snd w :: field_addresses rest) in E.
  cbn [map app] in E.
  apply (skipn_head _ _ _ []) in E as [Ex E].
  apply (skipn_head _ _ _ []) in E as [Ey E].
  cbn [relabel_field map]. rewrite (IH _ E).
  unfold read_wave at 1. cbn [fst snd]. now rewrite Ex, Ey.
Qed.

Lemma read_relabel_data (h H : heap) (d : list (list wave_data)) (base : nat)
  (tail : heap) :
  skipn base H = map (fun l => nth l h []) (addresses d) ++ tail ->
  read_data H (relabel_data base d) = read_data h d.
Proof.
  revert base tail. induction d as [|fd rest IH]; intros base tail E;
    [reflexivity|].
  change (addresses (fd :: rest))
    with (field_addresses fd ++ addresses rest) in E.
  rewrite map_app, <- app_assoc in E.
  unfold read_data. cbn [relabel_data map]. f_equal.
  - exact (read_relabel_field h H fd base _ E).
  - apply (IH _ tail).
    rewrite Nat.add_comm, <- skipn_skipn, E.
    rewrite skipn_app, length_map, Nat.sub_diag, skipn_all2
      by (rewrite length_map; lia).
    reflexivity.
Qed.

Lemma relabel_field_addresses (fd : list wave_data) (base : nat) :
  field_addresses (relabel_field base fd)
  = seq base (length (field_addresses fd)).
Proof.
  revert base. induction fd as [|w rest IH]; intros base; [reflexivity|].
  change (field_addresses (w :: rest))
    with (fst w :: snd w :: field_addresses rest).
  cbn [relabel_field length seq].
  change (field_addresses ((base, S base) :: relabel_field (S (S base)) rest))
    with (base :: S base :: field_addresses (relabel_field (S (S base)) rest)).
  now rewrite IH.
Qed.

Lemma relabel_data_addresses (d : list (list wave_data)) (base : nat) :
  addresses (relabel_data base d) = seq base (length (addresses d)).
Proof.
  revert base. induction d as [|fd rest IH]; intros base; [reflexivity|].
  change (addresses (fd :: rest)) with (field_addresses fd ++ addresses rest).
  cbn [relabel_data].
  change (addresses (relabel_field base fd
                     :: relabel_data (base + length (field_addresses fd)) rest))
    with (field_addresses (relabel_field base fd)
          ++ addresses (relabel_data (base + length (field_addresses fd)) rest)).
  now rewrite relabel_field_addresses, IH, length_app, seq_app.
Qed.

Lemma relabel_data_length (d : list (list wave_data)) (base : nat) :
  length (relabel_data base d) = length d.
Proof.
  revert base. induction d as [|fd rest IH]; intros base; simpl;
    [reflexivity|]. now rewrite IH.
Qed.

(** The copy returned by [deepcopy] is separated and holds the values of
    the original; the original is still separated in the larger store. *)
Lemma deepcopy_result (d : list (list wave_data)) (h : heap) :
  separated h d ->
  let h' := h ++ map (fun l => nth l h []) (addresses d) in
  separated h' (relabel_data (length h) d) /\
  read_data h' (relabel_data (length h) d) = read_data h d /\
  separated h' d /\ read_data h' d = read_data h d.
Proof.
  intros [Hnd Hall] h'. repeat split.
  - rewrite relabel_data_addresses. apply seq_NoDup.
  - rewrite relabel_data_addresses. apply Forall_forall. intros l Hl.
    apply in_seq in Hl. unfold h'. rewrite length_app, length_map.
    cbn beta. unfold loc in *. lia.
  - apply (read_relabel_data h h' d (length h) []).
    unfold h'. rewrite skipn_app, Nat.sub_diag, skipn_all, app_nil_r.
    reflexivity.
  - assumption.
  - eapply Forall_impl; [|exact Hall]. intros l Hl. cbn beta in *.
    unfold h'. rewrite length_app. lia.
  - unfold read_data. apply map_ext_in. intros fd Hfd.
    apply map_ext_in. intros w Hw. unfold read_wave.
    rewrite Forall_forall in Hall.
    assert (Hin : forall l, In l [fst w; snd w] -> In l (addresses d)).
    { intros l Hl. unfold addresses. apply in_flat_map. exists fd.
      split; [assumption|]. unfold field_addresses. apply in_flat_map.
      exists w. auto. }
    unfold h'. rewrite !app_nth1; [reflexivity| |];
      apply Hall, Hin; simpl; auto.
Qed.

Lemma nth_update_same (l : loc) (a : list R) (h : heap) :
  (l < length h)%nat -> nth l (update l a h) [] = a.
Proof.
  revert l. induction h as [|b h IH]; intros [|l] Hl; simpl in *; try lia;
    [reflexivity|]. apply IH. lia.
Qed.

Lemma nth_update_other (l l' : loc) (a : list R) (h : heap) :
  l' <> l -> nth l' (update l a h) [] = nth l' h [].
Proof.
  revert l l'. induction h as [|b h IH]; intros [|l] [|l'] Hl; simpl;
    try reflexivity; try contradiction.
  apply IH. intros E. apply Hl. now f_equal.
Qed.

Lemma read_field_agree (h h' : heap) (fd : list wave_data) :
  (forall l, In l (field_addresses fd) -> nth l h' [] = nth l h []) ->
  map (read_wave h') fd = map (read_wave h) fd.
Proof.
  intros H. apply map_ext_in. intros w Hw. unfold read_wave.
  rewrite !H; [reflexivity| |]; unfold field_addresses; apply in_flat_map;
    exists w; simpl; auto.
Qed.

(** The inner loop of [_center_spots] on the separated bundles of a field:
    every array is updated once. *)
Lemma center_field (cx cy : R) (fd : list wave_data) (h : heap) :
  NoDup (field_addresses fd) ->
  Forall (fun l => (l < length h)%nat) (field_addresses fd) ->
  exists h',
    mfor fd (fun w : wave_data => _ <~ isub (fst w) cx ;; isub (snd w) cy) h
    = (ok tt, h') /\
    length h' = length h /\
    (forall l, ~ In l (field_addresses fd) -> nth l h' [] = nth l h []) /\
    map (read_wave h') fd
    = map (fun w : list R * list R =>
             (map (fun v => v - cx) (fst w), map (fun v => v - cy) (snd w)))
        (map (read_wave h) fd).
Proof.
  revert h. induction fd as [|w rest IH]; intros h Hnd Hall.
  - exists h. cbn. auto.
  - change (field_addresses (w :: rest))
      with (fst w :: snd w :: field_addresses rest) in *.
    inversion Hnd as [|? ? Hx Hnd1]; subst.
    inversion Hnd1 as [|? ? Hy Hnd2]; subst.
    inversion Hall as [|? ? Hxl Hall1]; subst.
    inversion Hall1 as [|? ? Hyl Hall2]; subst.
    assert (Hxy : snd w <> fst w) by (intros E; apply Hx; left; congruence).
    set (hx := update (fst w) (map (fun v => v - cx) (nth (fst w) h [])) h).
    set (h1 := update (snd w) (map (fun v => v - cy) (nth (snd w) hx [])) hx).
    assert (Hlen1 : length h1 = length h)
      by (unfold h1, hx; now rewrite !update_length).
    destruct (IH h1 Hnd2) as (h' & Erun & Hlen & Hother & Hread).
    { now rewrite Hlen1. }
    assert (Hx1 : nth (fst w) h1 [] = map (fun v => v - cx) (nth (fst w) h [])).
    { unfold h1. rewrite nth_update_other by congruence.
      unfold hx. now apply nth_update_same. }
    assert (Hy1 : nth (snd w) h1 [] = map (fun v => v - cy) (nth (snd w) h [])).
    { unfold h1. rewrite nth_update_same
        by (unfold hx; now rewrite update_length).
      unfold hx. now rewrite nth_update_other. }
    assert (Hrest1 : forall l, l <> fst w -> l <> snd w ->
              nth l h1 [] = nth l h []).
    { intros l H1 H2. unfold h1, hx. now rewrite !nth_update_other. }
    exists h'. split; [|split; [|split]].
    + cbn [mfor]. unfold mbind at 1. unfold mbind at 1.
      cbn [isub fst snd ok]. fold hx. fold h1. exact Erun.
    + congruence.
    + intros l Hl. rewrite Hother by (intros Hin; apply Hl; right; now right).
      apply Hrest1; intros E; apply Hl; subst l; simpl; auto.
    + cbn [map]. f_equal.
      * unfold read_wave. cbn [fst snd].
        rewrite !Hother by (intros Hin; first [apply Hy; exact Hin
                                              | apply Hx; right; exact Hin]).
        now rewrite Hx1, Hy1.
      * rewrite Hread. f_equal. apply read_field_agree.
        intros l Hl. apply Hrest1; intros E; subst l.
        -- apply Hx. now right.
        -- now apply Hy.
Qed.

Lemma read_data_agree (h h' : heap) (d : list (list wave_data)) :
  (forall l, In l (addresses d) -> nth l h' [] = nth l h []) ->
  read_data h' d = read_data h d.
Proof.
  intros H. unfold read_data. apply map_ext_in. intros fd Hfd.
  apply read_field_agree. intros l Hl. apply H.
  unfold addresses. apply in_flat_map. eauto.
Qed.

(** The two nested loops of [_center_spots] on separated data. *)
Lemma center_data (d : list (list wave_data)) (cs : list (R * R)) (h : heap) :
  NoDup (addresses d) ->
  Forall (fun l => (l < length h)%nat) (addresses d) ->
  length cs = length d ->
  exists h',
    mfor (combine cs d)
      (fun cf =>
         mfor (snd cf)
           (fun w : wave_data =>
              _ <~ isub (fst w) (fst (fst cf)) ;;
              isub (snd w) (snd (fst cf)))) h
    = (ok tt, h') /\
    length h' = length h /\
    (forall l, ~ In l (addresses d) -> nth l h' [] = nth l h []) /\
    read_data h' d = SpotDiagram.subtract_centroids cs (read_data h d).
Proof.
  revert cs h. induction d as [|fd rest IH]; intros cs h Hnd Hall Hlen.
  - destruct cs; [|discriminate]. exists h. cbn. auto.
  - destruct cs as [|c cs]; [discriminate|].
    change (addresses (fd :: rest))
      with (field_addresses fd ++ addresses rest) in *.
    apply NoDup_app_remove_l in Hnd as Hnd2.
    apply NoDup_app_remove_r in Hnd as Hnd1.
    apply Forall_app in Hall as [Hall1 Hall2].
    destruct (center_field (fst c) (snd c) fd h Hnd1 Hall1)
      as (h1 & Erun1 & Hlen1 & Hother1 & Hread1).
    destruct (IH cs h1 Hnd2) as (h' & Erun & Hlen' & Hother & Hread).
    { now rewrite Hlen1. }
    { simpl in Hlen. lia. }
    exists h'. split; [|split; [|split]].
    + cbn [combine mfor]. unfold mbind at 1. cbn [fst snd].
      rewrite Erun1. exact Erun.
    + congruence.
    + intros l Hl. rewrite Hother, Hother1; [reflexivity| |];
        intros Hin; apply Hl, in_app_iff; auto.
    + unfold read_data in *. unfold SpotDiagram.subtract_centroids in *.
      cbn [map np.zip_with]. f_equal.
      * transitivity (map (read_wave h1) fd); [|exact Hread1].
        apply read_field_agree.
        intros l Hl. apply Hother.
        intros Hin. exact (NoDup_app_disjoint _ _ Hnd l Hl Hin).
      * rewrite Hread. f_equal.
        apply (read_data_agree h h1 rest). intros l Hl. apply Hother1.
        intros Hin. exact (NoDup_app_disjoint _ _ Hnd l Hin Hl).
Qed.

Lemma mmap_pure {A B} (f : A -> M B) (g : A -> result B) (xs : list A)
  (h : heap) :
  (forall v, In v xs -> f v h = (g v, h)) ->
  mmap f xs h = (map_result g xs, h).
Proof.
  induction xs as [|v rest IH]; intros H; [reflexivity|].
  cbn [mmap map_result]. unfold mbind at 1. rewrite H by now left.
  destruct (g v) as [e|b]; [reflexivity|]. cbn [bind].
  unfold mbind. rewrite IH by (intros; apply H; now right).
  destruct (map_result g rest); reflexivity.
Qed.

Lemma map_result_map {A A' B} (g : A' -> result B) (r : A -> A')
  (xs : list A) :
  map_result g (map r xs) = map_result (fun v => g (r v)) xs.
Proof.
  induction xs as [|v rest IH]; simpl; [reflexivity|]. now rewrite IH.
Qed.

Lemma map_result_length {A B} (f : A -> result B) (xs : list A) (bs : list B) :
  map_result f xs = ok bs -> length bs = length xs.
Proof.
  revert bs. induction xs as [|v rest IH]; intros bs E; simpl in E.
  - injection E as <-. reflexivity.
  - destruct (f v); [discriminate|]. cbn [bind] in E.
    destruct (map_result f rest); [discriminate|].
    injection E as <-. simpl. f_equal. now apply IH.
Qed.

Variable self : t.
Variable p : SpotDiagram.t.
Hypothesis same_index : primary_index (SpotDiagram.optic p) = norm_index self.

(** [centroid] reads the store and leaves it as it is. *)
Lemma centroid_refines (h : heap) :
  SpotDiagram.data p = read_data h (data self) ->
  centroid self h = (SpotDiagram.centroid p, h).
Proof.
  intros Hdata. unfold centroid, SpotDiagram.centroid.
  rewrite Hdata, same_index. unfold read_data. rewrite map_result_map.
  apply mmap_pure. intros fd _. unfold mbind, lift.
  rewrite py_index_map. unfold wave_data in *.
  destruct (py_index fd (norm_index self)) as [e|w]; reflexivity.
Qed.

(** The final loops: the radii are computed from the values in the store. *)
Lemma radii_refine (F : list R -> result R) (d : list (list wave_data))
  (h : heap) :
  mmap
    (fun field_data =>
       mmap
         (fun w : wave_data =>
            x <~ load (fst w) ;;
            y <~ load (snd w) ;;
            r2 <~ lift (np.add (np.square x) (np.square y)) ;;
            lift (F r2))
         field_data)
    d h
  = (map_result
       (fun field_data =>
          map_result
            (fun w : SpotDiagram.wave_data =>
               r2 <- np.add (np.square (fst w)) (np.square (snd w)) ;;
               F r2)
            field_data)
       (read_data h d), h).
Proof.
  unfold read_data. rewrite map_result_map.
  apply mmap_pure. intros fd _. rewrite map_result_map.
  apply mmap_pure. intros w _. unfold mbind, load, lift, read_wave.
  cbn [fst snd ok].
  destruct (np.add _ _) as [e|r2]; reflexivity.
Qed.

(** [_center_spots]: an exception of the value model is raised, or the
    returned copy holds the centred values. *)
Lemma center_spots_refines (arg : list (list wave_data))
  (arg' : list (list SpotDiagram.wave_data)) (h : heap) :
  separated h (data self) ->
  SpotDiagram.data p = read_data h (data self) ->
  match SpotDiagram._center_spots p arg' with
  | inl e => fst (_center_spots self arg h) = inl e
  | inr v =>
      exists d' h',
        _center_spots self arg h = (ok d', h') /\ read_data h' d' = v
  end.
Proof.
  intros Hsep Hdata. unfold SpotDiagram._center_spots.
  destruct (SpotDiagram.centroid p) as [e|cs] eqn:Ecs; cbn [bind ok].
  { unfold _center_spots, mbind.
    rewrite (centroid_refines h Hdata), Ecs. reflexivity. }
  assert (Hcs : length cs = length (data self)).
  { unfold SpotDiagram.centroid in Ecs. apply map_result_length in Ecs.
    rewrite Ecs, Hdata. unfold read_data. apply length_map. }
  unfold _center_spots. unfold mbind at 1.
  rewrite (centroid_refines h Hdata), Ecs.
  unfold mbind at 1. rewrite (deepcopy_separated _ _ Hsep).
  destruct (deepcopy_result _ _ Hsep) as ([Hnd Hall] & Hread & _ & _).
  set (h1 := h ++ map (fun l => nth l h []) (addresses (data self))) in *.
  set (d' := relabel_data (length h) (data self)) in *.
  destruct (center_data d' cs h1 Hnd Hall) as (h2 & Erun & _ & _ & Hread2).
  { unfold d'. now rewrite relabel_data_length. }
  exists d', h2. split.
  - unfold ok. cbv beta iota. unfold mbind at 1. rewrite Erun. reflexivity.
  - rewrite Hread2, Hread, Hdata. reflexivity.
Qed.

(** A read operation made of [deepcopy], [_center_spots] and the final
    loops returns what the value model returns. *)
Lemma radii_refines (F : list R -> result R) (h : heap) :
  separated h (data self) ->
  SpotDiagram.data p = read_data h (data self) ->
  fst ((arg <~ deepcopy (data self) ;;
        data <~ _center_spots self arg ;;
        mmap
          (fun field_data =>
             mmap
               (fun w : wave_data =>
                  x <~ load (fst w) ;;
                  y <~ load (snd w) ;;
                  r2 <~ lift (np.add (np.square x) (np.square y)) ;;
                  lift (F r2))
               field_data)
          data) h)
  = (data <- SpotDiagram._center_spots p (SpotDiagram.data p) ;;
     map_result
       (fun field_data =>
          map_result
            (fun w : SpotDiagram.wave_data =>
               r2 <- np.add (np.square (fst w)) (np.square (snd w)) ;;
               F r2)
            field_data)
       data).
Proof.
  intros Hsep Hdata.
  unfold mbind at 1. rewrite (deepcopy_separated _ _ Hsep).
  cbv beta iota delta [ok].
  destruct (deepcopy_result _ _ Hsep) as (_ & _ & Hsep1 & Hread1).
  set (h1 := h ++ map (fun l => nth l h []) (addresses (data self))) in *.
  assert (Hdata1 : SpotDiagram.data p = read_data h1 (data self))
    by congruence.
  pose proof (center_spots_refines
                (relabel_data (length h) (data self)) (SpotDiagram.data p)
                h1 Hsep1 Hdata1) as Hc.
  unfold mbind at 1.
  destruct (SpotDiagram._center_spots p (SpotDiagram.data p)) as [e|v].
  - destruct (_center_spots self _ h1) as [[e'|d'] h2]; cbn [fst] in Hc;
      [|discriminate]. cbn [bind fst]. now injection Hc as ->.
  - destruct Hc as (d' & h2 & Erun & Hread). rewrite Erun.
    cbv beta iota delta [ok].
    rewrite radii_refine. cbn [fst bind]. now rewrite Hread.
Qed.

(** On separated data, each of the three read operations of the store
    model returns what the value model returns. *)
Theorem store_refines_values (h : heap) :
  separated h (data self) ->
  SpotDiagram.data p = read_data h (data self) ->
  fst (centroid self h) = SpotDiagram.centroid p /\
  fst (geometric_spot_radius self h) = SpotDiagram.geometric_spot_radius p /\
  fst (rms_spot_radius self h) = SpotDiagram.rms_spot_radius p.
Proof.
  intros Hsep Hdata. split; [|split].
  - now rewrite centroid_refines.
  - exact (radii_refines (fun r2 => np.max (np.sqrt r2)) h Hsep Hdata).
  - exact (radii_refines (fun r2 => ok (sqrt (np.mean r2))) h Hsep Hdata).
Qed.

End StoreRefinement.

(** On the store model: [geometric_spot_radius] followed by
    [rms_spot_radius] on one instance with separated, well-formed data
    returns radii with geometric at least RMS, entry by entry. *)
Corollary store_geometric_then_rms (self : SpotStore.t) (p : SpotDiagram.t)
  (h : SpotStore.heap) :
  primary_index (SpotDiagram.optic p) = SpotStore.norm_index self ->
  SpotStore.separated h (SpotStore.data self) ->
  SpotDiagram.data p = SpotStore.read_data h (SpotStore.data self) ->
  SpotDiagram.well_formed p ->
  exists g r,
    fst (SpotStore.geometric_spot_radius self h) = ok g /\
    fst (SpotStore.rms_spot_radius self
           (snd (SpotStore.geometric_spot_radius self h))) = ok r /\
    Forall2 (Forall2 (fun geo rms => geo >= rms)) g r.
Proof.
  intros Hidx Hsep Hdata Hwf.
  destruct (geometric_spot_radius_computed p Hwf) as [g Hg].
  destruct (geometric_ge_rms_when_computed p g Hg) as [r [Hr Hge]].
  exists g, r.
  destruct (store_refines_values self p Hidx h Hsep Hdata) as (_ & Eg & _).
  destruct (keeps_whole_store (SpotStore.geometric_spot_radius self) h
              (keeps_geometric_spot_radius (length h) self)) as [ext Eh].
  assert (Hsep' : SpotStore.separated (h ++ ext) (SpotStore.data self)).
  { destruct Hsep as [Hnd Hall]. split; [assumption|].
    eapply Forall_impl; [|exact Hall]. intros l Hl. cbn beta in *.
    rewrite length_app. lia. }
  assert (Hdata' : SpotDiagram.data p
                   = SpotStore.read_data (h ++ ext) (SpotStore.data self)).
  { rewrite Hdata. symmetry. apply read_data_agree. intros l Hl.
    destruct Hsep as [_ Hall]. rewrite Forall_forall in Hall.
    now apply app_nth1, Hall. }
  destruct (store_refines_values self p Hidx (h ++ ext) Hsep' Hdata')
    as (_ & _ & Er).
  rewrite Eh, Eg, Er. auto.
Qed.

(** The copies are what [_center_spots] writes to: on the two-ray store
    the two arrays are copied to the addresses 2 and 3, and the centroid
    is subtracted there. *)
Example center_spots_writes_the_copies :
  SpotStore._center_spots two_ray_instance [] two_ray_store
  = (ok [[(2%nat, 3%nat)]],
     two_ray_store
     ++ [map (fun v => v - np.mean [0; 2]) [0; 2];
         map (fun v => v - np.mean [0; 0]) [0; 0]]).
Proof. reflexivity. Qed.

Example two_ray_store_radii :
  exists g r,
    fst (SpotStore.geometric_spot_radius two_ray_instance two_ray_store) = ok g /\
    fst (SpotStore.rms_spot_radius two_ray_instance
           (snd (SpotStore.geometric_spot_radius two_ray_instance two_ray_store)))
    = ok r /\
    Forall2 (Forall2 (fun geo rms => geo >= rms)) g r.
Proof.
  apply (store_geometric_then_rms two_ray_instance two_ray_spot).
  - reflexivity.
  - split.
    + repeat constructor; simpl; intuition discriminate.
    + repeat constructor.
  - reflexivity.
  - constructor; [|constructor]. split.
    + eexists. reflexivity.
    + constructor; [|constructor]. split; [reflexivity|discriminate].
Qed.

(** * Part III: further properties of the code *)

(** ** Plane: propagation distance *)

Lemma Rltb_true (a b : R) : Rltb a b = true <-> a < b.
Proof.
  unfold Rltb. destruct (Rleb b a) eqn:E; simpl.
  - apply Rleb_true in E. split; [discriminate|lra].
  - apply Rleb_false in E. tauto.
Qed.

Lemma zip_with_Forall2 {A B D} (f : A -> B -> D) (a : list A) (b : list B) :
  length a = length b ->
  Forall2 (fun (ab : A * B) (d : D) => d = f (fst ab) (snd ab))
    (combine a b) (np.zip_with f a b).
Proof.
  revert b. induction a as [|u a IH]; intros [|v b] H; simpl in *;
    try discriminate; constructor; [reflexivity|]. apply IH. lia.
Qed.



(** ** FieldCurvature: the closed form of the parabasal intersection *)









(** ** EncircledEnergy: the ends of the curve *)

Lemma selected_all (radii : list R) (energy : list (option R)) (r : R) :
  length radii = length energy ->
  Forall (fun v => v <= r) radii ->
  EncircledEnergy.selected radii energy r = energy.
Proof.
  intros Hlen H. revert energy Hlen.
  induction H as [|v radii Hv _ IH]; intros [|e energy] Hlen;
    simpl in Hlen; try discriminate; [reflexivity|].
  unfold EncircledEnergy.selected in *. simpl.
  apply Rleb_true in Hv. rewrite Hv. simpl. f_equal. apply IH. lia.
Qed.




(** ** SpotDiagram: the reference wavelength, centring and translation *)

Lemma py_index_out_of_range {A} (l : list A) (i : Z) :
  (Z.of_nat (length l) <= i \/ i < - Z.of_nat (length l))%Z ->
  py_index l i = raise IndexError.
Proof.
  intros H. unfold py_index.
  destruct (i <? 0)%Z eqn:Ei.
  - apply Z.ltb_lt in Ei.
    assert (E : (0 <=? Z.of_nat (length l) + i)%Z = false)
      by (apply Z.leb_gt; lia).
    rewrite E. reflexivity.
  - apply Z.ltb_ge in Ei.
    assert (E : (i <? Z.of_nat (length l))%Z = false)
      by (apply Z.ltb_ge; lia).
    rewrite E, andb_false_r. reflexivity.
Qed.

(** X4.  [SpotDiagram] reads the reference bundle of every field at the
    optic's primary index.  When the wavelengths in use are fewer than that
    index allows (a shorter explicit list, for instance) and there is at
    least one field, [centroid], [geometric_spot_radius] and
    [rms_spot_radius] all raise [IndexError]. *)
Theorem spot_primary_index_beyond_wavelengths :
  forall (o : Optic) (fs : selection (R * R)) (ws : selection R)
         (num_rings : Z) (distribution : string),
    select fs (field_coords o) <> [] ->
    (Z.of_nat (length (select ws (wavelength_list o))) <= primary_index o
     \/ primary_index o < - Z.of_nat (length (select ws (wavelength_list o))))%Z ->
    let self := SpotDiagram.__init__ o fs ws num_rings distribution in
    SpotDiagram.centroid self = raise IndexError /\
    SpotDiagram.geometric_spot_radius self = raise IndexError /\
    SpotDiagram.rms_spot_radius self = raise IndexError.
Proof.
  intros o fs ws nr dist Hf Hidx self.
  assert (Hc : SpotDiagram.centroid self = raise IndexError).
  { unfold SpotDiagram.centroid, self, SpotDiagram.__init__,
      SpotDiagram._generate_data.
    cbn [SpotDiagram.data SpotDiagram.optic].
    destruct (select fs (field_coords o)) as [|f rest]; [contradiction|].
    cbn [map map_result].
    rewrite py_index_out_of_range by (rewrite length_map; exact Hidx).
    reflexivity. }
  unfold SpotDiagram.geometric_spot_radius, SpotDiagram.rms_spot_radius,
    SpotDiagram._center_spots.
  rewrite Hc. auto.
Qed.

Lemma spot_primary_index_beyond_wavelengths_witness :
  let self :=
    SpotDiagram.__init__ three_wavelength_optic All (Given [0.55]) 6
      "hexapolar" in
  SpotDiagram.centroid self = raise IndexError /\
  SpotDiagram.geometric_spot_radius self = raise IndexError /\
  SpotDiagram.rms_spot_radius self = raise IndexError.
Proof.
  apply spot_primary_index_beyond_wavelengths.
  - discriminate.
  - left. simpl. lia.
Defined.










(** ** Dictionaries: lookup after assignment *)

Section Dict.

Context {K V : Type} (eqb : K -> K -> bool).
Hypothesis eqb_eq : forall a b, eqb a b = true <-> a = b.

Lemma eqb_same (a : K) : eqb a a = true.
Proof. now apply eqb_eq. Qed.

Lemma eqb_other (a b : K) : a <> b -> eqb a b = false.
Proof.
  intros H. destruct (eqb a b) eqn:E; [|reflexivity].
  apply eqb_eq in E. contradiction.
Qed.

Lemma dict_get_set_same (d : list (K * V)) (k : K) (v : V) :
  dict_get eqb (dict_set eqb d k v) k = ok v.
Proof.
  induction d as [|[k' v'] d IH]; simpl.
  - now rewrite eqb_same.
  - destruct (eqb k' k) eqn:E; simpl; rewrite E; [reflexivity|exact IH].
Qed.

Lemma dict_get_set_other (d : list (K * V)) (k k' : K) (v : V) :
  k <> k' ->
  dict_get eqb (dict_set eqb d k v) k' = dict_get eqb d k'.
Proof.
  intros Hne. induction d as [|[k0 v0] d IH]; simpl.
  - now rewrite eqb_other.
  - destruct (eqb k0 k) eqn:E; simpl.
    + apply eqb_eq in E. subst k0. now rewrite eqb_other.
    + destruct (eqb k0 k'); [reflexivity|exact IH].
Qed.

Lemma key_dec (a b : K) : a = b \/ a <> b.
Proof.
  destruct (eqb a b) eqn:E.
  - left. now apply eqb_eq.
  - right. intros H. apply eqb_eq in H. congruence.
Qed.

Lemma in_key_dec (k : K) (ks : list K) : In k ks \/ ~ In k ks.
Proof.
  induction ks as [|a ks [IH|IH]]; simpl.
  - right. tauto.
  - left. now right.
  - destruct (key_dec a k); [left; now left|right; tauto].
Qed.

(** A dictionary filled by one assignment per key of [ks]. *)
Lemma dict_get_filled (g : K -> V) (ks : list K) (d : list (K * V)) (k : K) :
  (In k ks ->
   dict_get eqb (fold_left (fun d k => dict_set eqb d k (g k)) ks d) k
   = ok (g k)) /\
  (~ In k ks ->
   dict_get eqb (fold_left (fun d k => dict_set eqb d k (g k)) ks d) k
   = dict_get eqb d k).
Proof.
  revert d. induction ks as [|a ks IH]; intros d; simpl.
  - split; [contradiction|reflexivity].
  - destruct (IH (dict_set eqb d a (g a))) as [IHin IHout].
    destruct (key_dec a k) as [E|E].
    + subst a. split; [intros _|intros H; exfalso; apply H; now left].
      destruct (in_key_dec k ks) as [Hin|Hout].
      * now apply IHin.
      * rewrite IHout by assumption. apply dict_get_set_same.
    + split.
      * intros [H|H]; [contradiction|]. now apply IHin.
      * intros H. rewrite IHout by (intros Hin; apply H; now right). now apply dict_get_set_other.
Qed.

(** A loop that replaces the value of every key of [ks] by its image under
    a function that may raise. *)
Lemma dict_update_loop (G : V -> result V) (ks : list K) :
  NoDup ks ->
  forall d d',
    for_each ks
      (fun d k => v <- dict_get eqb d k ;; v' <- G v ;; ok (dict_set eqb d k v')) d
    = ok d' ->
    forall k,
      (In k ks ->
       exists v v', dict_get eqb d k = ok v /\ G v = ok v' /\
                    dict_get eqb d' k = ok v') /\
      (~ In k ks -> dict_get eqb d' k = dict_get eqb d k).
Proof.
  induction 1 as [|a ks Ha _ IH]; intros d d' Hrun k; simpl in Hrun.
  - injection Hrun as <-. split; [contradiction|reflexivity].
  - destruct (dict_get eqb d a) as [e|v] eqn:Ev; [discriminate|].
    cbn [bind] in Hrun.
    destruct (G v) as [e|v'] eqn:Ev'; [discriminate|].
    cbn [bind ok] in Hrun.
    destruct (IH _ _ Hrun k) as [IHin IHout].
    destruct (key_dec a k) as [E|E].
    + subst a. split; [intros _|intros H; exfalso; apply H; now left].
      exists v, v'. split; [exact Ev|]. split; [exact Ev'|].
      rewrite IHout by assumption. apply dict_get_set_same.
    + split.
      * intros [H|H]; [contradiction|].
        destruct (IHin H) as (u & u' & Hu & HG & Hd').
        exists u, u'. rewrite dict_get_set_other in Hu by assumption. auto.
      * intros H. rewrite IHout by (intros Hin; apply H; now right). now apply dict_get_set_other.
Qed.

End Dict.

(** ** RayFan: the reference wavelength and the reference sample

    The keys [f'{field}'] and [f'{wavelength}'] of the data are the decimal
    representations of the numbers, which determine them: the dictionaries
    of the model are keyed by the numbers themselves. *)

Lemma field_eqb_eq (f g : R * R) : RayFan.field_eqb f g = true <-> f = g.
Proof.
  destruct f as [a b], g as [c d]. unfold RayFan.field_eqb. cbn [fst snd].
  rewrite andb_true_iff, !Reqb_true. split.
  - intros [-> ->]. reflexivity.
  - intros E. injection E as -> ->. auto.
Qed.

Lemma trace_wavelengths_get (o : Optic) (ws : list R) (n : Z) (field : R * R)
  (w : R) :
  (In w ws -> exists c, dict_get Reqb (RayFan.trace_wavelengths o ws n field) w = ok c) /\
  (~ In w ws ->
   dict_get Reqb (RayFan.trace_wavelengths o ws n field) w = raise KeyError).
Proof.
  unfold RayFan.trace_wavelengths.
  destruct (dict_get_filled Reqb Reqb_true
              (fun wavelength =>
                 {| RayFan.ex :=
                      ray_x (trace o (fst field) (snd field) wavelength n "line_x");
                    RayFan.ey :=
                      ray_y (trace o (fst field) (snd field) wavelength n "line_y") |})
              ws [] w) as [Hin Hout].
  split; intros H.
  - eexists. apply Hin, H.
  - apply Hout, H.
Qed.

Lemma trace_fields_get (o : Optic) (fs : list (R * R)) (ws : list R) (n : Z)
  (f : R * R) :
  In f fs ->
  dict_get RayFan.field_eqb (RayFan.trace_fields o fs ws n) f
  = ok (RayFan.trace_wavelengths o ws n f).
Proof.
  intros H. unfold RayFan.trace_fields.
  apply (dict_get_filled RayFan.field_eqb field_eqb_eq
           (fun field => RayFan.trace_wavelengths o ws n field) fs [] f), H.
Qed.

(** X7.  With at least one field and a sample count that is not negative,
    [RayFan] raises [KeyError] when the optic's primary wavelength is not
    among the wavelengths in use: the offsets are read from the curves of
    that wavelength. *)
Theorem RayFan_requires_primary_wavelength :
  forall (o : Optic) (fs : selection (R * R)) (ws : selection R) (num_points : Z),
    (0 <= num_points)%Z ->
    select fs (field_coords o) <> [] ->
    ~ In (primary_wavelength o) (select ws (wavelength_list o)) ->
    RayFan.__init__ o fs ws num_points = raise KeyError.
Proof.
  intros o fs ws n Hn Hf Hw.
  unfold RayFan.__init__, RayFan._generate_data.
  cbn [RayFan.num_points RayFan.optic RayFan.fields RayFan.wavelengths].
  assert (Hn' : (0 <= RayFan.force_num_points n)%Z).
  { unfold RayFan.force_num_points. destruct (n mod 2 =? 1)%Z; lia. }
  rewrite linspace_ok by exact Hn'. cbn [bind ok].
  destruct (select fs (field_coords o)) as [|f rest] eqn:Ef; [contradiction|].
  cbn [for_each].
  rewrite trace_fields_get by now left. cbn [bind ok].
  unfold RayFan.remove_offsets at 1.
  rewrite (proj2 (trace_wavelengths_get _ _ _ _ _) Hw). reflexivity.
Qed.

Lemma RayFan_requires_primary_wavelength_witness :
  RayFan.__init__ three_wavelength_optic All (Given [0.48; 0.65]) 256
  = raise KeyError.
Proof.
  apply RayFan_requires_primary_wavelength.
  - lia.
  - discriminate.
  - simpl. intros [H|[H|[]]]; lra.
Defined.

Lemma remove_offsets_zero (ws : list R) (wave_ref : R) (n : Z)
  (d d' : list (R * RayFan.curve)) :
  NoDup ws -> In wave_ref ws ->
  RayFan.remove_offsets ws wave_ref n d = ok d' ->
  zero_reference wave_ref (n / 2) d'.
Proof.
  intros Hnd Hin. unfold RayFan.remove_offsets.
  destruct (dict_get Reqb d wave_ref) as [e|ref] eqn:Eref; [discriminate|].
  cbn [bind].
  destruct (py_index (RayFan.ex ref) (n / 2)) as [e|x_offset] eqn:Ex;
    [discriminate|]. cbn [bind].
  destruct (py_index (RayFan.ey ref) (n / 2)) as [e|y_offset] eqn:Ey;
    [discriminate|]. cbn [bind].
  intros Hrun.
  destruct (dict_update_loop Reqb Reqb_true
              (fun c => ok {| RayFan.ex := map (fun v => v - x_offset) (RayFan.ex c);
                              RayFan.ey := map (fun v => v - y_offset) (RayFan.ey c) |})
              ws Hnd d d' Hrun wave_ref) as [Hin' _].
  destruct (Hin' Hin) as (v & v' & Hv & Hv' & Hd').
  rewrite Eref in Hv. injection Hv as <-. injection Hv' as <-.
  exists {| RayFan.ex := map (fun v => v - x_offset) (RayFan.ex ref);
            RayFan.ey := map (fun v => v - y_offset) (RayFan.ey ref) |}.
  split; [exact Hd'|]. cbn [RayFan.ex RayFan.ey].
  rewrite !py_index_map, Ex, Ey. cbn [result_map].
  split; unfold ok; do 2 f_equal; lra.
Qed.

Lemma fields_loop_zero (ws : list R) (wave_ref : R) (n : Z) (fs : list (R * R)) :
  NoDup ws -> In wave_ref ws ->
  forall data final,
    for_each fs
      (fun data field =>
         d <- dict_get RayFan.field_eqb data field ;;
         d' <- RayFan.remove_offsets ws wave_ref n d ;;
         ok (dict_set RayFan.field_eqb data field d'))
      data = ok final ->
    forall f,
      In f fs \/
      (exists d, dict_get RayFan.field_eqb data f = ok d /\
                 zero_reference wave_ref (n / 2) d) ->
      exists d, dict_get RayFan.field_eqb final f = ok d /\
                zero_reference wave_ref (n / 2) d.
Proof.
  intros Hnd Hin. induction fs as [|g fs IH]; intros data final Hrun f Hf.
  - simpl in Hrun. injection Hrun as <-. destruct Hf as [[]|H]. exact H.
  - cbn [for_each] in Hrun.
    destruct (dict_get RayFan.field_eqb data g) as [e|d] eqn:Ed; [discriminate|].
    cbn [bind] in Hrun.
    destruct (RayFan.remove_offsets ws wave_ref n d) as [e|d'] eqn:Ed';
      [discriminate|].
    cbn [bind ok] in Hrun.
    apply (IH _ _ Hrun f).
    destruct (key_dec RayFan.field_eqb field_eqb_eq g f) as [E|E].
    + subst g. right. exists d'. split.
      * apply (dict_get_set_same RayFan.field_eqb field_eqb_eq).
      * eapply remove_offsets_zero; eassumption.
    + destruct Hf as [[H|H]|(d0 & Hd0 & Hz)]; [contradiction|now left|].
      right. exists d0. split; [|exact Hz].
      rewrite (dict_get_set_other RayFan.field_eqb field_eqb_eq) by assumption.
      exact Hd0.
Qed.

(** X8.  When [RayFan._generate_data] returns and no wavelength is listed
    twice, the curves of every field at the primary wavelength pass through
    zero at the reference sample: both [x] and [y] are 0 at index
    [num_points // 2]. *)
Theorem RayFan_reference_sample_is_zero :
  forall (self : RayFan.t) (data : RayFan.data_t),
    RayFan._generate_data self = ok data ->
    NoDup (RayFan.wavelengths self) ->
    forall f, In f (RayFan.fields self) ->
      exists d,
        dict_get RayFan.field_eqb (RayFan.curves data) f = ok d /\
        zero_reference (primary_wavelength (RayFan.optic self))
          (RayFan.num_points self / 2) d.
Proof.
  intros self data Hgen Hnd f Hf.
  unfold RayFan._generate_data in Hgen.
  destruct (np.linspace (-1) 1 (RayFan.num_points self)) as [e|px];
    [discriminate|]. cbn [bind] in Hgen.
  match type of Hgen with
  | bind ?m _ = _ => destruct m as [e|final] eqn:Hrun; [discriminate|]
  end.
  cbn [bind ok] in Hgen. injection Hgen as <-. cbn [RayFan.curves].
  assert (Hin : In (primary_wavelength (RayFan.optic self))
                  (RayFan.wavelengths self)).
  { destruct (in_key_dec Reqb Reqb_true
                (primary_wavelength (RayFan.optic self))
                (RayFan.wavelengths self)) as [H|H]; [exact H|exfalso].
    destruct (RayFan.fields self) as [|g rest]; [contradiction|].
    cbn [for_each] in Hrun.
    rewrite trace_fields_get in Hrun by now left. cbn [bind ok] in Hrun.
    unfold RayFan.remove_offsets at 1 in Hrun.
    rewrite (proj2 (trace_wavelengths_get _ _ _ _ _) H) in Hrun.
    discriminate. }
  eapply fields_loop_zero; [exact Hnd|exact Hin|exact Hrun|now left].
Qed.

Lemma two_point_fan_data :
  exists data, RayFan._generate_data two_point_fan = ok data.
Proof.
  unfold RayFan._generate_data, two_point_fan, np.linspace,
    RayFan.trace_fields, RayFan.trace_wavelengths, RayFan.remove_offsets.
  cbn [RayFan.num_points RayFan.fields RayFan.wavelengths RayFan.optic
       fan_optic trace primary_wavelength fst snd ray_x ray_y
       Z.ltb Z.compare bind ok fold_left for_each dict_set dict_get].
  pose proof (proj2 (field_eqb_eq (0, 0) (0, 0)) eq_refl) as Ef.
  repeat first
    [ rewrite Ef
    | rewrite Reqb_refl
    | progress cbn [bind ok dict_get dict_set RayFan.ex RayFan.ey map]
    | progress change (py_index [0.55; 0.55 + 1] (2 / 2)) with (ok (0.55 + 1))
    | progress change (py_index [0; 0 + 2] (2 / 2)) with (ok (0 + 2)) ].
  eexists. reflexivity.
Qed.

Lemma RayFan_reference_sample_is_zero_witness :
  exists data d,
    RayFan._generate_data two_point_fan = ok data /\
    dict_get RayFan.field_eqb (RayFan.curves data) (0, 0) = ok d /\
    zero_reference 0.55 1 d.
Proof.
  destruct two_point_fan_data as [data Hdata].
  destruct (RayFan_reference_sample_is_zero two_point_fan data Hdata)
    with (f := (0, 0)) as (d & Hd & Hz).
  - repeat constructor. intros [].
  - now left.
  - exists data, d. auto.
Defined.

(** X9.  Whatever sample count is requested, a constructed [RayFan] holds
    an even count, the requested one or the next; its two pupil grids are
    equal arrays of that many samples, and no sample is the pupil centre
    0. *)
Theorem RayFan_grid_never_samples_zero :
  forall (o : Optic) (fs : selection (R * R)) (ws : selection R)
         (num_points : Z) (self : RayFan.t) (data : RayFan.data_t),
    RayFan.__init__ o fs ws num_points = ok (self, data) ->
    (num_points <= RayFan.num_points self <= num_points + 1)%Z /\
    (RayFan.num_points self mod 2 = 0)%Z /\
    RayFan.Px data = RayFan.Py data /\
    length (RayFan.Px data) = Z.to_nat (RayFan.num_points self) /\
    Forall (fun p => p <> 0) (RayFan.Px data).
Proof.
  intros o fs ws n self data. unfold RayFan.__init__.
  destruct (RayFan._generate_data _) as [e|d] eqn:Hgen; [discriminate|].
  cbn [bind ok]. intros H. injection H as <- <-.
  cbn [RayFan.num_points].
  unfold RayFan._generate_data in Hgen. cbn [RayFan.num_points] in Hgen.
  destruct (np.linspace (-1) 1 (RayFan.force_num_points n)) as [e|px] eqn:Hpx;
    [discriminate|].
  cbn [bind] in Hgen.
  match type of Hgen with
  | bind ?m _ = _ => destruct m as [e|final]; [discriminate|]
  end.
  cbn [bind ok] in Hgen. injection Hgen as <-. cbn [RayFan.Px RayFan.Py].
  split; [|split; [|split; [|split]]].
  - unfold RayFan.force_num_points.
    destruct (n mod 2 =? 1)%Z; lia.
  - apply force_num_points_even.
  - reflexivity.
  - unfold np.linspace in Hpx.
    destruct (RayFan.force_num_points n <? 0)%Z; [discriminate|].
    injection Hpx as <-. apply linspace_nat_length.
  - eapply forced_grid_has_no_zero, Hpx.
Qed.

Lemma RayFan_grid_never_samples_zero_witness :
  exists self data,
    RayFan.__init__ fan_optic All All 1 = ok (self, data) /\
    (1 <= RayFan.num_points self <= 1 + 1)%Z /\
    (RayFan.num_points self mod 2 = 0)%Z /\
    RayFan.Px data = RayFan.Py data /\
    length (RayFan.Px data) = Z.to_nat (RayFan.num_points self) /\
    Forall (fun p => p <> 0) (RayFan.Px data).
Proof.
  destruct two_point_fan_data as [data Hdata].
  assert (E : RayFan.__init__ fan_optic All All 1 = ok (two_point_fan, data)).
  { unfold RayFan.__init__.
    change {| RayFan.optic := fan_optic;
              RayFan.fields := select All (field_coords fan_optic);
              RayFan.wavelengths := select All (wavelength_list fan_optic);
              RayFan.num_points := RayFan.force_num_points 1 |}
      with two_point_fan.
    rewrite Hdata. reflexivity. }
  exists two_point_fan, data. split; [exact E|].
  exact (RayFan_grid_never_samples_zero _ _ _ _ _ _ E).
Defined.

(** ** Distortion and GridDistortion: the selector and the calibration *)

(** X10.  A distortion type other than ['f-tan'] and ['f-theta'] makes
    both constructors raise [ValueError] once the tracer returns a
    reference ray: [Distortion] when at least one wavelength is in use,
    [GridDistortion] always (for a sample count that is not negative). *)
Theorem unknown_distortion_type_is_refused :
  forall (o : Optic) (distortion_type : string) (num_points : Z),
    String.eqb distortion_type "f-tan" = false ->
    String.eqb distortion_type "f-theta" = false ->
    (0 <= num_points)%Z ->
    (forall ws w rest,
        select ws (wavelength_list o) = w :: rest ->
        ray_y (trace_generic o
                 (Array (List.repeat 0 (Z.to_nat num_points)))
                 (Array (np.linspace_nat 1e-10 1 (Z.to_nat num_points)))
                 (Scalar 0) (Scalar 0) w)
        <> [] ->
        Distortion.__init__ o ws num_points distortion_type = raise ValueError) /\
    (forall w,
        ray_y (trace_generic o (Scalar 0) (Scalar 1e-10) (Scalar 0) (Scalar 0)
                 (match w with None => primary_wavelength o | Some v => v end))
        <> [] ->
        GridDistortion.__init__ o w num_points distortion_type = raise ValueError).
Proof.
  intros o dt n H1 H2 Hn. split.
  - intros ws w rest Hws Hrays.
    unfold Distortion.__init__, Distortion._generate_data.
    cbn [Distortion.num_points Distortion.wavelengths].
    rewrite zeros_ok, linspace_ok, Hws by assumption. cbn [bind ok for_each].
    rewrite wavelength_data_unknown_type by auto. reflexivity.
  - intros w Hrays. unfold GridDistortion.__init__.
    rewrite GridDistortion_unknown_type_refused; auto.
Qed.

Lemma unknown_distortion_type_is_refused_witness :
  Distortion.__init__ pinhole_optic All 128 "f-sin" = raise ValueError /\
  GridDistortion.__init__ pinhole_optic None 10 "f-sin" = raise ValueError.
Proof.
  split.
  - apply (proj1 (unknown_distortion_type_is_refused pinhole_optic "f-sin" 128
                    eq_refl eq_refl ltac:(lia)) All 0.55 []).
    + reflexivity.
    + discriminate.
  - apply (proj2 (unknown_distortion_type_is_refused pinhole_optic "f-sin" 10
                    eq_refl eq_refl ltac:(lia)) None).
    discriminate.
Defined.



Lemma linspace_nat_first (a b : R) (n : nat) :
  exists rest, np.linspace_nat a b (S n) = a :: rest.
Proof.
  unfold np.linspace_nat. cbn [seq map]. eexists. f_equal.
  simpl INR. lra.
Qed.




(** X12.  [GridDistortion] cannot be built on an empty grid: with
    [num_points = 0] and a reference ray from the tracer the constructor
    raises [ValueError], whatever the distortion type. *)
Theorem GridDistortion_empty_grid_is_refused :
  forall (o : Optic) (w : option R) (distortion_type : string),
    ray_y (trace_generic o (Scalar 0) (Scalar 1e-10) (Scalar 0) (Scalar 0)
             (match w with None => primary_wavelength o | Some v => v end))
    <> [] ->
    GridDistortion.__init__ o w 0 distortion_type = raise ValueError.
Proof.
  intros o w dt Hrays.
  unfold GridDistortion.__init__, GridDistortion._generate_data.
  cbn [GridDistortion.optic GridDistortion.wavelength GridDistortion.num_points
       GridDistortion.distortion_type].
  destruct (ray_y _) as [|y0 ys]; [contradiction|].
  rewrite py_index_first. cbn [bind ok].
  change (np.linspace (- (sqrt 2 / 2)) (sqrt 2 / 2) 0) with (ok (@nil R)).
  cbn [bind ok np.meshgrid map np.ravel concat].
  destruct (String.eqb dt "f-tan");
    [|destruct (String.eqb dt "f-theta"); [|reflexivity]];
    cbn [bind ok fst snd GridDistortion.ideal map];
    unfold np.reshape;
    (destruct (ray_x _) as [|x0 xs]; [|reflexivity]);
    (destruct (ray_y _) as [|y1 ys']; [|reflexivity]);
    reflexivity.
Qed.

Lemma GridDistortion_empty_grid_is_refused_witness :
  GridDistortion.__init__ pinhole_optic None 0 "f-tan" = raise ValueError.
Proof. apply GridDistortion_empty_grid_is_refused. discriminate. Defined.





(** ** FFTPSF: padding, the aperture and the modulus of the transform *)

Lemma pad2_rows (w : nat) (p : list (list C)) (n : nat) :
  length p = n -> Forall (fun row => length row = n) p ->
  let q := List.repeat (List.repeat Czero (w + length (hd [] p) + w)) w
           ++ map (fun row => List.repeat Czero w ++ row ++ List.repeat Czero w) p
           ++ List.repeat (List.repeat Czero (w + length (hd [] p) + w)) w in
  length q = (n + 2 * w)%nat /\
  Forall (fun row => length row = (n + 2 * w)%nat) q.
Proof.
  intros Hlen Hrows q. unfold q. split.
  - rewrite !length_app, length_map, !repeat_length. lia.
  - assert (Hhd : (w + length (hd [] p) + w = n + 2 * w)%nat \/ w = 0%nat).
    { destruct p as [|row p].
      - simpl in Hlen. subst n. simpl.
        destruct w; [now right|left; lia].
      - left. cbn [hd]. inversion Hrows as [|? ? Hr _]. lia. }
    rewrite !Forall_app. split; [|split].
    + apply Forall_forall. intros row Hrow. apply repeat_spec in Hrow as Hr.
      subst row. rewrite repeat_length.
      destruct Hhd as [E|E]; [exact E|]. subst w. destruct Hrow.
    + apply Forall_forall. intros row' Hrow.
      apply in_map_iff in Hrow as [row [E Hin]]. subst row'.
      rewrite Forall_forall in Hrows. specialize (Hrows row Hin).
      rewrite !length_app, !repeat_length. lia.
    + apply Forall_forall. intros row Hrow. apply repeat_spec in Hrow as Hr.
      subst row. rewrite repeat_length.
      destruct Hhd as [E|E]; [exact E|]. subst w. destruct Hrow.
Qed.

(** X14.  [_pad_pupils] on an [n x n] pupil: a [grid_size] below [n] is
    refused with [ValueError]; otherwise the padded pupil is square, of
    side [grid_size] when [grid_size - n] is even and of side
    [grid_size - 1] when it is odd. *)
Theorem pad_pupils_side :
  forall (self : FFTPSF.t) (p : list (list C)) (n : nat),
    length p = n ->
    Forall (fun row => length row = n) p ->
    ((FFTPSF.grid_size self < Z.of_nat n)%Z ->
     FFTPSF._pad_pupils self [p] = raise ValueError) /\
    ((Z.of_nat n <= FFTPSF.grid_size self)%Z ->
     exists q side,
       FFTPSF._pad_pupils self [p] = ok [q] /\
       length q = side /\
       Forall (fun row => length row = side) q /\
       Z.of_nat side
       = (FFTPSF.grid_size self - (FFTPSF.grid_size self - Z.of_nat n) mod 2)%Z).
Proof.
  intros self p n Hlen Hrows.
  unfold FFTPSF._pad_pupils. cbn [map_result]. rewrite Hlen.
  set (g := FFTPSF.grid_size self).
  pose proof (Z.div_mod (g - Z.of_nat n) 2 ltac:(lia)) as Hdm.
  pose proof (Z.mod_pos_bound (g - Z.of_nat n) 2 ltac:(lia)) as Hmod.
  split.
  - intros Hlt. unfold FFTPSF.pad2.
    assert (E : ((g - Z.of_nat n) / 2 <? 0)%Z = true) by (apply Z.ltb_lt; lia).
    rewrite E. reflexivity.
  - intros Hle.
    assert (Hpad : (0 <= (g - Z.of_nat n) / 2)%Z) by lia.
    rewrite pad2_ok by exact Hpad. cbn [bind ok].
    destruct (pad2_rows (Z.to_nat ((g - Z.of_nat n) / 2)) p n Hlen Hrows)
      as [Hq Hqrows].
    eexists. exists (n + 2 * Z.to_nat ((g - Z.of_nat n) / 2))%nat.
    split; [reflexivity|]. split; [exact Hq|]. split; [exact Hqrows|].
    rewrite Nat2Z.inj_add, Nat2Z.inj_mul, Z2Nat.id by exact Hpad. lia.
Qed.

Lemma pad_pupils_side_witness :
  (exists q side,
     FFTPSF._pad_pupils (flat_wavefront 1) [[[Cone; Cone]; [Cone; Cone]]]
     = ok [q] /\
     length q = side /\
     Forall (fun row => length row = side) q /\
     Z.of_nat side = (5 - (5 - 2) mod 2)%Z).
Proof.
  apply (pad_pupils_side (flat_wavefront 1) [[Cone; Cone]; [Cone; Cone]] 2).
  - reflexivity.
  - repeat constructor.
  - simpl. lia.
Defined.


(** A place that the mask does not select keeps its value. *)
Lemma mask_fill_outside {A} (mask : list bool) (P values : list A) (i : nat)
  (d : A) :
  nth i mask false = false ->
  nth i (FFTPSF.mask_fill mask P values) d = nth i P d.
Proof.
  revert P values i. induction mask as [|b mask IH]; intros P values i Hi.
  - destruct P; reflexivity.
  - destruct P as [|p P]; [destruct b; reflexivity|].
    destruct i as [|i].
    + simpl in Hi. subst b. reflexivity.
    + simpl in Hi.
      destruct b; [destruct values|]; simpl; now apply IH.
Qed.

Lemma nth_map_const {A B} (c : B) (l : list A) (i : nat) :
  nth i (map (fun _ => c) l) c = c.
Proof.
  revert i. induction l as [|a l IH]; intros [|i]; simpl; auto.
Qed.

Lemma chunks_rows {A} (rows cols : nat) (a : list A) :
  length a = (rows * cols)%nat ->
  Forall (fun row => length row = cols) (np.chunks rows cols a).
Proof.
  revert a. induction rows as [|r IH]; intros a Hlen; simpl; constructor.
  - rewrite length_firstn. simpl in Hlen. lia.
  - apply IH. rewrite length_skipn. simpl in Hlen. lia.
Qed.

Lemma pupil_shape_and_support (self : FFTPSF.t) (mask : list bool) (k : nat)
  (p : list (list C)) :
  FFTPSF.pupil self mask k = ok p ->
  length p = Z.to_nat (FFTPSF.num_rays self) /\
  Forall (fun row => length row = Z.to_nat (FFTPSF.num_rays self)) p /\
  forall i, nth i mask false = false -> nth i (np.ravel p) Czero = Czero.
Proof.
  unfold FFTPSF.pupil.
  destruct (py_index (FFTPSF.data self) 0) as [e|field0]; [discriminate|].
  cbn [bind].
  destruct (py_index field0 (Z.of_nat k)) as [e|d]; [discriminate|].
  cbn [bind].
  destruct (np.broadcast2 _ _ _) as [e|values]; [discriminate|]. cbn [bind].
  assert (HP : forall P,
             FFTPSF.mask_assign mask (map (fun _ => Czero) mask) values = ok P ->
             exists vs, P = FFTPSF.mask_fill mask (map (fun _ => Czero) mask) vs).
  { intros P. unfold FFTPSF.mask_assign.
    destruct (length values =? count_occ bool_dec mask true)%nat.
    - intros E. injection E as <-. eauto.
    - destruct values as [|v [|v' values]]; [discriminate| |discriminate].
      intros E. injection E as <-. eauto. }
  destruct (FFTPSF.mask_assign _ _ _) as [e|P]; [discriminate|]. cbn [bind].
  destruct (HP P eq_refl) as [vs ->]. clear HP.
  unfold np.reshape.
  destruct (0 <=? FFTPSF.num_rays self)%Z eqn:E0; [|discriminate].
  destruct (Z.of_nat _ =? _)%Z eqn:E1; [|discriminate]. cbn [andb].
  intros H. injection H as <-.
  apply Z.leb_le in E0. apply Z.eqb_eq in E1.
  assert (Hlen : length (FFTPSF.mask_fill mask (map (fun _ => Czero) mask) vs)
                 = (Z.to_nat (FFTPSF.num_rays self)
                    * Z.to_nat (FFTPSF.num_rays self))%nat).
  { apply Nat2Z.inj. rewrite E1, Nat2Z.inj_mul, Z2Nat.id by lia. reflexivity. }
  split; [apply chunks_length|]. split; [now apply chunks_rows|].
  intros i Hi. unfold np.ravel. rewrite chunks_concat by exact Hlen.
  rewrite mask_fill_outside by exact Hi.
  apply nth_map_const.
Qed.

(** X15.  When [_generate_pupils] returns, there is one pupil per
    wavelength, every pupil is a [num_rays x num_rays] grid, and every
    sample outside the unit disk of the pupil grid is zero. *)
Theorem pupils_vanish_outside_aperture :
  forall (self : FFTPSF.t) (pupils : list (list (list C))),
    FFTPSF._generate_pupils self = ok pupils ->
    length pupils = length (FFTPSF.wavelengths self) /\
    Forall
      (fun p =>
         length p = Z.to_nat (FFTPSF.num_rays self) /\
         Forall (fun row => length row = Z.to_nat (FFTPSF.num_rays self)) p /\
         forall i,
           nth i (FFTPSF.grid_mask self) false = false ->
           nth i (np.ravel p) Czero = Czero)
      pupils.
Proof.
  intros self pupils. unfold FFTPSF._generate_pupils, np.linspace.
  destruct (FFTPSF.num_rays self <? 0)%Z; [discriminate|]. cbn [bind ok].
  fold (FFTPSF.grid_mask self).
  intros H. split.
  - apply map_result_length in H. now rewrite H, length_seq.
  - revert pupils H.
    generalize (seq 0 (length (FFTPSF.wavelengths self))) as ks.
    induction ks as [|k ks IH]; intros pupils H; simpl in H.
    + injection H as <-. constructor.
    + destruct (FFTPSF.pupil self _ k) as [e|p] eqn:Ep; [discriminate|].
      cbn [bind] in H.
      destruct (map_result _ ks) as [e|ps]; [discriminate|].
      cbn [bind ok] in H. injection H as <-.
      constructor; [|now apply IH].
      eapply pupil_shape_and_support, Ep.
Qed.

Lemma pupils_vanish_outside_aperture_witness :
  exists pupils,
    FFTPSF._generate_pupils (flat_wavefront 1) = ok pupils /\
    length pupils = 1%nat /\
    Forall
      (fun p =>
         length p = 3%nat /\
         Forall (fun row => length row = 3%nat) p /\
         forall i,
           nth i (FFTPSF.grid_mask (flat_wavefront 1)) false = false ->
           nth i (np.ravel p) Czero = Czero)
      pupils.
Proof.
  destruct (FFTPSF._generate_pupils (flat_wavefront 1)) as [e|pupils] eqn:E.
  - exfalso.
    rewrite (flat_wavefront_pupils (flat_wavefront 1) 0.55 1
               [([0; 0; 0; 0; 0], [1; 1; 1; 1; 1])]) in E;
      [discriminate|reflexivity|reflexivity| | |].
    + unfold FFTPSF.flat_data. rewrite five_samples_inside. reflexivity.
    + lra.
    + rewrite five_samples_inside. lia.
  - exists pupils. split; [reflexivity|].
    exact (pupils_vanish_outside_aperture (flat_wavefront 1) pupils E).
Defined.

Lemma Cabs_nonneg (z : C) : 0 <= Cabs z.
Proof. apply sqrt_pos. Qed.







Lemma abs_sum_nonneg (l : list C) : 0 <= abs_sum l.
Proof.
  induction l as [|z l IH]; simpl; [lra|]. pose proof (Cabs_nonneg z). lra.
Qed.















(** ** FFTPSF: the window found by [_find_bounds] *)

Lemma row_dark (row : list R) (threshold : R) :
  Forall (fun v => v <= threshold) row ->
  filter snd (fft.enumerate (map (fun v => Rltb threshold v) row)) = [].
Proof.
  intros H. unfold fft.enumerate. rewrite length_map. generalize 0%nat as c.
  induction H as [|v row Hv _ IH]; intros c; [reflexivity|].
  cbn [length seq map combine filter snd].
  assert (E : Rltb threshold v = false).
  { destruct (Rltb threshold v) eqn:E; [|reflexivity].
    apply Rltb_true in E. lra. }
  rewrite E. apply IH.
Qed.

Lemma row_bright (row : list R) (threshold : R) :
  Exists (fun v => threshold < v) row ->
  filter snd (fft.enumerate (map (fun v => Rltb threshold v) row)) <> [].
Proof.
  intros H. unfold fft.enumerate. rewrite length_map. generalize 0%nat as c.
  induction H as [v row Hv|v row _ IH]; intros c;
    cbn [length seq map combine filter snd].
  - apply Rltb_true in Hv. rewrite Hv. discriminate.
  - destruct (Rltb threshold v); [discriminate|]. apply IH.
Qed.

Lemma argwhere_dark (psf : list (list R)) (threshold : R) :
  Forall (Forall (fun v => v <= threshold)) psf ->
  FFTPSF_view.argwhere (map (map (fun v => Rltb threshold v)) psf) = [].
Proof.
  intros H. unfold FFTPSF_view.argwhere.
  assert (E : forall {A B} (f : A -> list B) (l : list A),
             (forall x, In x l -> f x = []) -> flat_map f l = []).
  { intros A B f l. induction l as [|x l IH]; intros Hf; [reflexivity|].
    simpl. rewrite Hf by now left. apply IH. intros; apply Hf; now right. }
  apply E. intros ir Hir. apply enumerate_In_snd in Hir.
  apply in_map_iff in Hir as [row [Erow Hrow]]. rewrite <- Erow.
  rewrite Forall_forall in H. now rewrite row_dark by auto.
Qed.

Lemma argwhere_bright (psf : list (list R)) (threshold : R) :
  Exists (Exists (fun v => threshold < v)) psf ->
  FFTPSF_view.argwhere (map (map (fun v => Rltb threshold v)) psf) <> [].
Proof.
  intros H. apply Exists_exists in H as [row [Hrow Hbright]].
  apply row_bright in Hbright.
  unfold FFTPSF_view.argwhere.
  set (mask := map (map (fun v => Rltb threshold v)) psf).
  assert (Hin : In (map (fun v => Rltb threshold v) row)
                  (map snd (fft.enumerate mask))).
  { rewrite enumerate_snd. unfold mask. now apply in_map. }
  apply in_map_iff in Hin as [ir [Eir Hir]].
  destruct (filter snd (fft.enumerate (snd ir))) as [|jb rest] eqn:Ef.
  { rewrite Eir in Ef. contradiction. }
  intros E.
  assert (Hel : In (Z.of_nat (fst ir), Z.of_nat (fst jb))
                  (flat_map
                     (fun ir =>
                        map (fun jb => (Z.of_nat (fst ir), Z.of_nat (fst jb)))
                          (filter snd (fft.enumerate (snd ir))))
                     (fft.enumerate mask))).
  { apply in_flat_map. exists ir. split; [exact Hir|].
    rewrite Ef. now left. }
  rewrite E in Hel. destruct Hel.
Qed.

Lemma fold_min_max (rest : list (Z * Z)) (p q : Z * Z) :
  (fst p <= fst q)%Z -> (snd p <= snd q)%Z ->
  let lo := fold_left
              (fun acc r => (Z.min (fst acc) (fst r), Z.min (snd acc) (snd r)))
              rest p in
  let hi := fold_left
              (fun acc r => (Z.max (fst acc) (fst r), Z.max (snd acc) (snd r)))
              rest q in
  (fst lo <= fst hi)%Z /\ (snd lo <= snd hi)%Z.
Proof.
  revert p q. induction rest as [|r rest IH]; intros p q H1 H2; simpl.
  - auto.
  - apply IH; cbn [fst snd]; lia.
Qed.

Lemma bright_size_nonneg (psf : list (list R)) (threshold : R) (size : Z) :
  FFTPSF_view.bright_size psf threshold = ok size -> (0 <= size)%Z.
Proof.
  unfold FFTPSF_view.bright_size.
  destruct (FFTPSF_view.argwhere _) as [|p rest]; [discriminate|].
  cbn [FFTPSF_view.min_axis0 FFTPSF_view.max_axis0 bind ok].
  intros H. injection H as <-.
  destruct (fold_min_max rest p p) as [H1 H2]; lia.
Qed.

(** X16.  [_find_bounds] raises [ValueError] when no sample of the PSF
    exceeds the threshold and returns otherwise.  The window it returns
    lies inside the grid and contains the centre index of each axis, and
    its width along either axis is at most the largest index extent of the
    samples above the threshold; with a single such sample the window is
    the empty one at the centre. *)
Theorem find_bounds_window :
  forall (psf : list (list R)) (threshold : R),
    let rows := Z.of_nat (length psf) in
    let cols := Z.of_nat (length (hd [] psf)) in
    (Forall (Forall (fun v => v <= threshold)) psf ->
     FFTPSF_view._find_bounds psf threshold = raise ValueError) /\
    (Exists (Exists (fun v => threshold < v)) psf ->
     exists b, FFTPSF_view._find_bounds psf threshold = ok b) /\
    (forall min_x min_y max_x max_y,
        FFTPSF_view._find_bounds psf threshold = ok (min_x, min_y, max_x, max_y) ->
        (0 <= min_x <= rows / 2)%Z /\ (rows / 2 <= max_x <= rows)%Z /\
        (0 <= min_y <= cols / 2)%Z /\ (cols / 2 <= max_y <= cols)%Z /\
        exists size,
          FFTPSF_view.bright_size psf threshold = ok size /\
          (max_x - min_x <= size)%Z /\ (max_y - min_y <= size)%Z) /\
    (forall i j,
        FFTPSF_view.argwhere (map (map (fun v => Rltb threshold v)) psf)
        = [(i, j)] ->
        FFTPSF_view._find_bounds psf threshold
        = ok ((rows / 2)%Z, (cols / 2)%Z, (rows / 2)%Z, (cols / 2)%Z)).
Proof.
  intros psf threshold rows cols.
  assert (Hrows : (0 <= rows)%Z) by (unfold rows; lia).
  assert (Hcols : (0 <= cols)%Z) by (unfold cols; lia).
  pose proof (Z.div_mod rows 2 ltac:(lia)) as Hr.
  pose proof (Z.mod_pos_bound rows 2 ltac:(lia)) as Hrm.
  pose proof (Z.div_mod cols 2 ltac:(lia)) as Hc.
  pose proof (Z.mod_pos_bound cols 2 ltac:(lia)) as Hcm.
  split; [|split; [|split]].
  - intros H. unfold FFTPSF_view._find_bounds, FFTPSF_view.bright_size.
    now rewrite argwhere_dark.
  - intros H. apply argwhere_bright in H.
    unfold FFTPSF_view._find_bounds, FFTPSF_view.bright_size.
    destruct (FFTPSF_view.argwhere _) as [|p rest]; [contradiction|].
    cbn [FFTPSF_view.min_axis0 FFTPSF_view.max_axis0 bind ok].
    eexists. reflexivity.
  - intros min_x min_y max_x max_y. unfold FFTPSF_view._find_bounds.
    destruct (FFTPSF_view.bright_size psf threshold) as [e|size] eqn:Es;
      [discriminate|].
    pose proof (bright_size_nonneg _ _ _ Es) as Hs.
    cbn [bind ok]. fold rows cols. intros H.
    match type of H with
    | ok (?a, ?b, ?c, ?d) = _ =>
        set (A := a) in H; set (B := b) in H; set (D := c) in H;
        set (E := d) in H
    end.
    injection H as <- <- <- <-. unfold A, B, D, E. clear A B D E.
    repeat match goal with
           | |- context [(?a <? ?b)%Z] => destruct (Z.ltb_spec a b)
           end;
      (split; [|split; [|split; [|split]]]);
      try (exists size; split; [reflexivity|split]);
      Z.to_euclidean_division_equations; lia.
  - intros i j H. unfold FFTPSF_view._find_bounds, FFTPSF_view.bright_size.
    rewrite H.
    cbn [FFTPSF_view.min_axis0 FFTPSF_view.max_axis0 fold_left bind ok fst snd].
    rewrite !Z.sub_diag. change (Z.max 0 0) with 0%Z. fold rows cols.
    repeat match goal with
           | |- context [(?a <? ?b)%Z] => destruct (Z.ltb_spec a b)
           end;
      unfold ok; f_equal;
      (apply (f_equal2 pair); [apply (f_equal2 pair); [apply (f_equal2 pair)|]|]);
      Z.to_euclidean_division_equations; lia.
Qed.

Lemma find_bounds_window_witness :
  FFTPSF_view._find_bounds [[0; 0; 0]; [0; 100; 0]; [0; 0; 0]] 200
  = raise ValueError.
Proof.
  apply (proj1 (find_bounds_window [[0; 0; 0]; [0; 100; 0]; [0; 0; 0]] 200)).
  repeat constructor; lra.
Defined.

(** ** EncircledEnergy: the curves of [view] end at the whole energy *)

Lemma map_result_graph {A B} (f : A -> result B) (xs : list A) (ys : list B) :
  map_result f xs = ok ys -> Forall2 (fun x y => f x = ok y) xs ys.
Proof.
  revert ys. induction xs as [|x xs IH]; intros ys H; simpl in H.
  - injection H as <-. constructor.
  - destruct (f x) as [e|y] eqn:Ey; [discriminate|]. cbn [bind] in H.
    destruct (map_result f xs) as [e|ys']; [discriminate|].
    cbn [bind ok] in H. injection H as <-. constructor; auto.
Qed.

Lemma np_max_ge (l : list R) (m : R) :
  np.max l = ok m -> Forall (fun v => v <= m) l.
Proof.
  destruct l as [|v rest]; [discriminate|]. simpl. intros H. injection H as <-.
  apply Forall_forall. intros u Hu. now apply fold_left_Rmax_ge.
Qed.

Lemma py_index_last {A} (l : list A) (a : A) : py_index (l ++ [a]) (-1) = ok a.
Proof.
  unfold py_index. rewrite length_app. cbn [length].
  change (-1 <? 0)%Z with true. cbv iota.
  replace (Z.of_nat (length l + 1) + -1)%Z with (Z.of_nat (length l)) by lia.
  replace ((0 <=? Z.of_nat (length l)) && (Z.of_nat (length l) <? Z.of_nat (length l + 1)))%Z
    with true
    by (symmetry; apply andb_true_iff; split;
        [apply Z.leb_le|apply Z.ltb_lt]; lia).
  rewrite Nat2Z.id, nth_error_app2, Nat.sub_diag by lia. reflexivity.
Qed.

Lemma linspace_nat_last (b : R) (n : nat) :
  (2 <= n)%nat -> exists init, np.linspace_nat 0 b n = init ++ [b].
Proof.
  intros Hn. destruct n as [|k]; [lia|].
  unfold np.linspace_nat. rewrite seq_S, map_app. cbn [map Nat.add].
  eexists. f_equal. f_equal.
  rewrite linspace_step_ge2 by exact Hn.
  replace (S k - 1)%nat with k by lia.
  assert (0 < INR k) by (apply lt_0_INR; lia). field. lra.
Qed.

(** With all radii within reach, a computed encircled energy is the whole
    energy. *)
Lemma encircled_energy_whole (radii : list R) (energy : list (option R))
  (r v : R) :
  Forall (fun u => u <= r) radii ->
  EncircledEnergy._encircled_energy radii energy r = ok v ->
  v = EncircledEnergy.nansum energy.
Proof.
  intros Hall H.
  assert (Hlen : length radii = length energy).
  { unfold EncircledEnergy._encircled_energy, EncircledEnergy.mask_select in H.
    rewrite length_map in H.
    destruct (Nat.eqb_spec (length energy) (length radii)) as [E|E];
      [now symmetry|discriminate]. }
  rewrite encircled_energy_ok, selected_all in H by assumption.
  now injection H as <-.
Qed.

(** One bundle: its curve ends at its whole energy when the last radius
    reaches its geometric radius. *)
Lemma bundle_curve_end (pts : EncircledEnergy.points) (geo r_max : R)
  (init : list R) (ee : list R) :
  (r2 <- np.add (np.square (fst (fst pts))) (np.square (snd (fst pts))) ;;
   np.max (np.sqrt r2)) = ok geo ->
  geo <= r_max ->
  (let '(x, y, energy) := pts in
   r2 <- np.add (np.square x) (np.square y) ;;
   let radii := np.sqrt r2 in
   EncircledEnergy.vectorize
     (fun r => EncircledEnergy._encircled_energy radii energy r)
     (init ++ [r_max])) = ok ee ->
  py_index ee (-1) = ok (EncircledEnergy.nansum (snd pts)).
Proof.
  destruct pts as [[x y] energy]. cbn [fst snd].
  destruct (np.add (np.square x) (np.square y)) as [e|r2]; [discriminate|].
  cbn [bind]. intros Hgeo Hle Hee.
  apply np_max_ge in Hgeo.
  rewrite vectorize_nonempty in Hee by (destruct init; discriminate).
  apply map_result_graph in Hee.
  apply Forall2_app_inv_l in Hee as (e1 & e2 & _ & Hlast & ->).
  inversion Hlast as [|? v ? e3 Hv Hnil]; subst. inversion Hnil; subst.
  rewrite py_index_last. f_equal.
  eapply encircled_energy_whole; [|exact Hv].
  eapply Forall_impl; [|exact Hgeo]. intros u Hu. cbv beta in Hu. lra.
Qed.

Lemma bundle_geo_nonneg (pts : EncircledEnergy.points) (geo : R) :
  (r2 <- np.add (np.square (fst (fst pts))) (np.square (snd (fst pts))) ;;
   np.max (np.sqrt r2)) = ok geo ->
  0 <= geo.
Proof.
  destruct (np.add _ _) as [e|r2]; [discriminate|]. cbn [bind].
  destruct r2 as [|v r2]; [discriminate|]. simpl. intros H. injection H as <-.
  apply Rle_trans with (sqrt v); [apply sqrt_pos|].
  apply fold_left_Rmax_ge_init.
Qed.

(** One field: every curve starts at radius 0 and ends at the whole energy
    of its bundle. *)
Lemma field_curves_end (c0 : R * R) (fd : list EncircledEnergy.points)
  (g : list R) (c : list R * list (list R)) (axis_lim : R) (n : Z) :
  let T := fun p : EncircledEnergy.points =>
             (map (fun v => v - fst c0) (fst (fst p)),
              map (fun v => v - snd c0) (snd (fst p)), snd p) in
  map_result
    (fun p : EncircledEnergy.points =>
       r2 <- np.add (np.square (fst (fst p))) (np.square (snd (fst p))) ;;
       np.max (np.sqrt r2))
    (map T fd) = ok g ->
  Forall (fun v => v <= axis_lim) g ->
  EncircledEnergy_view._plot_field (map T fd) axis_lim n = ok c ->
  (2 <= n)%Z ->
  py_index (fst c) 0 = ok 0 /\
  Forall2
    (fun (pts : EncircledEnergy.points) (ee : list R) =>
       py_index ee (-1) = ok (EncircledEnergy.nansum (snd pts)))
    fd (snd c).
Proof.
  intros T Hg Hle Hc Hn.
  unfold EncircledEnergy_view._plot_field,
    EncircledEnergy._generate_encircled_energy_data in Hc.
  rewrite linspace_ok in Hc by lia. cbn [bind ok] in Hc.
  set (r_max := axis_lim * EncircledEnergy.default_buffer) in *.
  destruct (linspace_nat_last r_max (Z.to_nat n) ltac:(lia)) as [init Einit].
  destruct (Z.to_nat n) as [|k] eqn:Ek; [lia|].
  destruct (linspace_nat_first 0 r_max k) as [rest Efirst].
  match type of Hc with
  | bind ?m _ = _ => destruct m as [e|ee] eqn:Eee; [discriminate|]
  end.
  cbn [bind ok] in Hc. injection Hc as <-. cbn [fst snd].
  split; [rewrite Efirst; apply py_index_first|].
  rewrite Einit in Eee. clear Efirst Einit Ek.
  apply map_result_graph in Hg, Eee.
  revert g ee Hg Hle Eee. induction fd as [|pts fd IH]; intros g ee Hg Hle Eee.
  - inversion Eee; subst. constructor.
  - cbn [map] in Hg, Eee.
    inversion Hg as [|? geo ? g' Hgeo Hg']; subst.
    inversion Eee as [|? e1 ? ee' He1 Hee']; subst.
    inversion Hle as [|? ? Hgeo_le Hle']; subst.
    constructor; [|now apply (IH g' ee')].
    pose proof (bundle_geo_nonneg _ _ Hgeo) as Hpos.
    change (snd pts) with (snd (T pts)).
    apply (bundle_curve_end (T pts) geo r_max init e1); [exact Hgeo| |exact He1].
    unfold r_max, EncircledEnergy.default_buffer. lra.
Qed.

(** X17.  For an [EncircledEnergy] analyzer as its constructor builds it,
    when the curves of [view] are computed with at least two radii, the
    radii of every field start at 0 and the curve of its bundle ends (at
    radius [1.2 * axis_lim]) at the whole energy of the bundle, NaN
    energies counted as zero: the last radius encloses every ray of every
    field. *)
Theorem view_curves_end_at_whole_energy :
  forall (o : Optic) (fs : selection (R * R)) (wavelength : option R)
         (num_rays : Z) (distribution : string) (num_points : Z)
         (curves : list (list R * list (list R))),
    let self :=
      EncircledEnergy_view.__init__ o fs wavelength num_rays distribution
        num_points in
    EncircledEnergy_view.view self = ok curves ->
    (2 <= num_points)%Z ->
    Forall2
      (fun (field_data : list EncircledEnergy.points)
           (c : list R * list (list R)) =>
         py_index (fst c) 0 = ok 0 /\
         Forall2
           (fun (pts : EncircledEnergy.points) (ee : list R) =>
              py_index ee (-1) = ok (EncircledEnergy.nansum (snd pts)))
           field_data (snd c))
      (EncircledEnergy_view.data self) curves.
Proof.
  intros o fs wavelength num_rays distribution num_points curves self Hview Hn.
  change num_points with (EncircledEnergy_view.num_points self) in Hn.
  clearbody self.
  unfold EncircledEnergy_view.view, EncircledEnergy_view.geometric_spot_radius
    in Hview.
  unfold EncircledEnergy_view._center_spots in *.
  destruct (EncircledEnergy_view.centroid self) as [e|cs] eqn:Ecs;
    [discriminate|].
  cbn [bind ok] in Hview.
  apply map_result_length in Ecs.
  match type of Hview with
  | bind ?m _ = _ => destruct m as [e|geo] eqn:Egeo; [discriminate|]
  end.
  cbn [bind] in Hview.
  destruct (np.max (np.ravel geo)) as [e|axis_lim] eqn:Emax; [discriminate|].
  cbn [bind] in Hview.
  apply map_result_graph in Egeo, Hview. apply np_max_ge in Emax.
  revert cs geo curves Ecs Egeo Emax Hview.
  generalize (EncircledEnergy_view.data self) as data.
  induction data as [|fd data IH]; intros cs geo curves Ecs Egeo Emax Hview.
  - destruct cs; [|discriminate]. inversion Hview; subst. constructor.
  - destruct cs as [|c0 cs]; [discriminate|].
    cbn [np.zip_with] in Egeo, Hview.
    inversion Egeo as [|? g ? geo' Hg Hgeo']; subst.
    inversion Hview as [|? c ? curves' Hc Hcurves']; subst.
    unfold np.ravel in Emax. cbn [concat] in Emax.
    apply Forall_app in Emax as [Hle Emax'].
    constructor.
    + exact (field_curves_end c0 fd g c axis_lim _ Hg Hle Hc Hn).
    + apply (IH cs geo' curves'); auto.
Qed.

Lemma view_curves_end_at_whole_energy_witness :
  exists curves,
    EncircledEnergy_view.view
      (EncircledEnergy_view.__init__ two_ray_optic All None 2 "random" 3)
    = ok curves /\
    Forall2
      (fun (field_data : list EncircledEnergy.points)
           (c : list R * list (list R)) =>
         py_index (fst c) 0 = ok 0 /\
         Forall2
           (fun (pts : EncircledEnergy.points) (ee : list R) =>
              py_index ee (-1) = ok (EncircledEnergy.nansum (snd pts)))
           field_data (snd c))
      [[([0; 0 + 1], [0; 0], [Some 1; None])]] curves.
Proof.
  assert (H : exists curves,
             EncircledEnergy_view.view
               (EncircledEnergy_view.__init__ two_ray_optic All None 2 "random" 3)
             = ok curves) by (eexists; reflexivity).
  destruct H as [curves H]. exists curves. split; [exact H|].
  apply (view_curves_end_at_whole_energy two_ray_optic All None 2 "random" 3
           curves H).
  lia.
Defined.

(** ** FFTPSF: the image prepared by [_plot_3d] *)

Lemma fold_left_Rmin_le_init (l : list R) (v : R) : fold_left Rmin l v <= v.
Proof.
  revert v. induction l as [|u l IH]; intros v; simpl; [lra|].
  apply Rle_trans with (Rmin v u); [apply IH|apply Rmin_l].
Qed.

Lemma fold_left_Rmin_le (l : list R) (v u : R) :
  In u (v :: l) -> fold_left Rmin l v <= u.
Proof.
  revert v. induction l as [|w l IH]; intros v Hin; simpl.
  - destruct Hin as [E|[]]. lra.
  - destruct Hin as [E|[E|Hin]].
    + subst. apply Rle_trans with (Rmin u w); [|apply Rmin_l].
      apply fold_left_Rmin_le_init.
    + subst. apply Rle_trans with (Rmin v u); [|apply Rmin_r].
      apply fold_left_Rmin_le_init.
    + apply IH. now right.
Qed.

Lemma fold_left_Rmin_In (l : list R) (v : R) : In (fold_left Rmin l v) (v :: l).
Proof.
  revert v. induction l as [|w l IH]; intros v; simpl; [now left|].
  destruct (IH (Rmin v w)) as [E|Hin]; [|right; now right].
  rewrite <- E. unfold Rmin. destruct (Rle_dec v w); [now left|right; now left].
Qed.

Lemma np_min_spec (l : list R) (m : R) :
  FFTPSF_plot_3d.np_min l = ok m -> In m l /\ Forall (fun v => m <= v) l.
Proof.
  destruct l as [|v rest]; [discriminate|]. simpl. intros H. injection H as <-.
  split; [apply fold_left_Rmin_In|].
  apply Forall_forall. intros u Hu. now apply fold_left_Rmin_le.
Qed.

Lemma no_positive_value (image : list (list R)) :
  Forall (Forall (fun v => v <= 0)) image ->
  filter (fun v => Rltb 0 v) (np.ravel image) = [].
Proof.
  intros H. unfold np.ravel.
  induction H as [|row image' Hrow _ IH]; [reflexivity|].
  cbn [concat]. rewrite filter_app, IH, app_nil_r.
  induction Hrow as [|v row Hv _ IHr]; [reflexivity|].
  cbn [filter].
  destruct (Rltb 0 v) eqn:E; [apply Rltb_true in E; lra|exact IHr].
Qed.

(** X18.  [_plot_3d] on an image without any positive value raises
    [ValueError] once the axis units are computed, with or without [log].
    When it returns without [log], the surface keeps every positive value
    of the image and has the smallest positive value [m] in place of the
    others, so that every value of the surface is at least [m > 0]; with
    [log] it returns the same axes and the decimal logarithm of that
    surface. *)
Theorem plot_3d_surface_is_positive :
  forall (self : FFTPSF.t) (image : list (list R)),
    (forall units log,
        FFTPSF._get_psf_units self
          (Z.of_nat (length image), Z.of_nat (length (hd [] image)))
        = ok units ->
        Forall (Forall (fun v => v <= 0)) image ->
        FFTPSF_plot_3d._plot_3d self image log = raise ValueError) /\
    (forall x y out,
        FFTPSF_plot_3d._plot_3d self image false = ok (x, y, out) ->
        FFTPSF_plot_3d._plot_3d self image true
        = ok (x, y, map (map FFTPSF_plot_3d.log10) out) /\
        exists m,
          0 < m /\ In m (np.ravel image) /\
          Forall (fun v => 0 < v -> m <= v) (np.ravel image) /\
          Forall2
            (Forall2 (fun v v' => (0 < v -> v' = v) /\ (v <= 0 -> v' = m)))
            image out /\
          Forall (fun v' => m <= v') (np.ravel out)).
Proof.
  intros self image. unfold FFTPSF_plot_3d._plot_3d. split.
  - intros units log Hu H. rewrite Hu. cbn [bind ok fst snd].
    rewrite !linspace_ok by lia. cbn [bind ok].
    pose proof (no_positive_value image H) as E.
    rewrite E. reflexivity.
  - intros x y out.
    destruct (FFTPSF._get_psf_units self _) as [e|units]; [discriminate|].
    cbn [bind ok fst snd]. rewrite !linspace_ok by lia. cbn [bind ok].
    destruct (FFTPSF_plot_3d.np_min _) as [e|m] eqn:Em; [discriminate|].
    cbn [bind ok]. intros H. injection H as <- <- <-.
    split; [reflexivity|].
    apply np_min_spec in Em as [Hin Hmin].
    apply filter_In in Hin as [Hin Hpos]. apply Rltb_true in Hpos.
    exists m. split; [exact Hpos|]. split; [exact Hin|].
    assert (Hle : forall v, In v (np.ravel image) -> 0 < v -> m <= v).
    { intros v Hv Hv0. rewrite Forall_forall in Hmin. apply Hmin.
      apply filter_In. split; [exact Hv|]. now apply Rltb_true. }
    split; [apply Forall_forall; exact Hle|]. split.
    + apply Forall2_map_graph. intros row. apply Forall2_map_graph.
      intros v. destruct (Rleb v 0) eqn:E.
      * apply Rleb_true in E. split; [lra|reflexivity].
      * apply Rleb_false in E. split; [reflexivity|lra].
    + rewrite ravel_map. apply Forall_forall. intros v' Hv'.
      apply in_map_iff in Hv' as [v [E Hv]]. subst v'.
      destruct (Rleb v 0) eqn:E; [lra|].
      apply Rleb_false in E. now apply Hle.
Qed.

(** ** SpotDiagram: which bundle is the reference *)



(** ** Distortion: a system that follows the ideal law *)






(** ** FFTPSF: the range of the PSF and the peak of a flat phase *)













(** ** RayFan: when the constructor returns *)


Section RayFanLoops.

Variables (ws : list R) (wave_ref : R) (n : Z).




End RayFanLoops.



(** ** SpotDiagram in the store: the read operations can be repeated *)

Lemma run_ops_extends (self : SpotStore.t) (ops : list SpotStore.read_op)
  (h : SpotStore.heap) :
  exists ext, SpotStore.run_ops self ops h = h ++ ext.
Proof.
  revert h. unfold SpotStore.run_ops.
  induction ops as [|op ops IH]; intros h; simpl.
  - exists []. now rewrite app_nil_r.
  - destruct (run_op_extends self op h) as [e1 E1].
    destruct (IH (SpotStore.run_op self op h)) as [e2 E2].
    exists (e1 ++ e2). rewrite E2, E1. now rewrite app_assoc.
Qed.

(** X24.  On an instance whose stored arrays are pairwise distinct and
    allocated, [centroid], [geometric_spot_radius] and [rms_spot_radius]
    return after any sequence of earlier calls of the three what they
    return at once, namely the results computed from the stored values:
    the in-place subtraction of [_center_spots] never reaches a later
    call. *)
Theorem read_operations_are_repeatable :
  forall (self : SpotStore.t) (ops : list SpotStore.read_op)
         (h : SpotStore.heap),
    SpotStore.separated h (SpotStore.data self) ->
    let h' := SpotStore.run_ops self ops h in
    fst (SpotStore.centroid self h') = fst (SpotStore.centroid self h) /\
    fst (SpotStore.geometric_spot_radius self h')
    = fst (SpotStore.geometric_spot_radius self h) /\
    fst (SpotStore.rms_spot_radius self h')
    = fst (SpotStore.rms_spot_radius self h) /\
    fst (SpotStore.geometric_spot_radius self h)
    = SpotDiagram.geometric_spot_radius (stored_spot self h).
Proof.
  intros self ops h Hsep h'.
  destruct (run_ops_extends self ops h) as [ext Eh]. fold h' in Eh.
  assert (Hsep' : SpotStore.separated h' (SpotStore.data self)).
  { rewrite Eh. destruct Hsep as [Hnd Hall]. split; [assumption|].
    eapply Forall_impl; [|exact Hall]. intros l Hl. cbn beta in *.
    rewrite length_app. lia. }
  assert (Hdata' : SpotDiagram.data (stored_spot self h)
                   = SpotStore.read_data h' (SpotStore.data self)).
  { cbn [stored_spot SpotDiagram.data]. symmetry. rewrite Eh.
    apply read_data_agree. intros l Hl.
    destruct Hsep as [_ Hall]. rewrite Forall_forall in Hall.
    now apply app_nth1, Hall. }
  destruct (store_refines_values self (stored_spot self h) eq_refl h Hsep eq_refl)
    as (Ec & Eg & Er).
  destruct (store_refines_values self (stored_spot self h) eq_refl h' Hsep' Hdata')
    as (Ec' & Eg' & Er').
  rewrite Ec, Eg, Er, Ec', Eg', Er'. auto.
Qed.

Lemma read_operations_are_repeatable_witness :
  let h' :=
    SpotStore.run_ops two_ray_instance
      [SpotStore.GeometricSpotRadius; SpotStore.Centroid] two_ray_store in
  fst (SpotStore.centroid two_ray_instance h')
  = fst (SpotStore.centroid two_ray_instance two_ray_store) /\
  fst (SpotStore.geometric_spot_radius two_ray_instance h')
  = fst (SpotStore.geometric_spot_radius two_ray_instance two_ray_store) /\
  fst (SpotStore.rms_spot_radius two_ray_instance h')
  = fst (SpotStore.rms_spot_radius two_ray_instance two_ray_store) /\
  fst (SpotStore.geometric_spot_radius two_ray_instance two_ray_store)
  = SpotDiagram.geometric_spot_radius
      (stored_spot two_ray_instance two_ray_store).
Proof.
  apply read_operations_are_repeatable.
  split.
  - cbn. repeat constructor; cbn; intuition lia.
  - cbn. repeat constructor.
Defined.

(** ** GridDistortion: a system that follows the ideal law *)




